(** * vhs-teletext: the command layer (teletext/cli.py) and the CELP dump
    (teletext/celp.py), embedded as functions over lists of bytes.

    Generators are modelled by the finite list of the elements they yield;
    exceptions by an [outcome]; the classes and functions the two files
    import from the rest of the package (FileChunker, Packet, Line, the
    Hamming decoder, the pipeline stages) are either modelled from the
    specification or taken as parameters, as stated at each definition. *)

From Stdlib Require Import ZArith Lia.
From Stdlib Require Import Strings.Ascii Strings.Byte.
From stdpp Require Import base list gmap strings pretty.

Local Open Scope Z_scope.
Local Open Scope nat_scope.

(* ================================================================== *)
(** * Python values and sequence operations                            *)
(* ================================================================== *)

#[global] Instance byte_eq_dec : EqDecision byte := Byte.byte_eq_dec.

(** The numeric value of a byte, 0..255. *)
Definition byte_val (b : byte) : Z := Z.of_N (Byte.to_N b).

(** [l[lo:hi]] for non-negative bounds; Python clamps both to the length. *)
Definition py_slice {A} (lo hi : nat) (l : list A) : list A :=
  take (hi - lo) (drop lo l).

(** [l[:k]] *)
Definition py_slice_to {A} (k : nat) (l : list A) : list A := take k l.

(** [l[-k:]] for [k > 0]: the last [k] elements, the whole of a shorter [l]. *)
Definition py_slice_last {A} (k : nat) (l : list A) : list A :=
  drop (length l - k) l.

(** The objects that travel through the chunk generators of cli.py: integers,
    [bytes] and tuples.  Slicing and unpacking are dynamically typed in the
    source, so they are defined on this universe. *)
#[warnings="-register-all"]
Inductive pyobj :=
  | PyInt (z : Z)
  | PyBytes (b : list byte)
  | PyTuple (items : list pyobj).

(** The exceptions the two files raise, catch or let through. *)
Inductive exn :=
  | KeyboardInterrupt
  | UsageError (msg : string)
  | ModuleNotFoundError (name msg : string)
  | TypeError
  | ValueError
  | IndexError
  | AttributeError
  | StructError.

(** The result of running a piece of code that may raise. *)
Inductive outcome (A : Type) :=
  | Returned (a : A)
  | Raised (e : exn).
Arguments Returned {A} a.
Arguments Raised {A} e.

#[global] Instance outcome_ret : MRet outcome := λ A a, Returned a.
#[global] Instance outcome_bind : MBind outcome := λ A B k o,
  match o with
  | Returned a => k a
  | Raised e => Raised e
  end.

(** [o[:k]]: defined on sequences, a TypeError on an integer. *)
Definition py_getslice_to (k : nat) (o : pyobj) : outcome pyobj :=
  match o with
  | PyBytes b => Returned (PyBytes (py_slice_to k b))
  | PyTuple items => Returned (PyTuple (py_slice_to k items))
  | PyInt _ => Raised TypeError
  end.

(** [a, b = o]: unpacking into exactly two targets. *)
Definition py_unpack2 (o : pyobj) : outcome (pyobj * pyobj) :=
  match o with
  | PyTuple [a; b] => Returned (a, b)
  | PyTuple _ => Raised ValueError
  | PyBytes [a; b] => Returned (PyInt (byte_val a), PyInt (byte_val b))
  | PyBytes _ => Raised ValueError
  | PyInt _ => Raised TypeError
  end.

Definition newline : string := String (Ascii.ascii_of_nat 10) EmptyString.

(** A container tested with [in]: a [range(stop)], a tuple of integers (what
    click builds for a repeated option) or a set of integers. *)
Inductive container :=
  | Range (stop : Z)
  | Tuple (items : list Z)
  | IntSet (s : gset Z).

(** [x in c] *)
Definition contains (c : container) (x : Z) : bool :=
  match c with
  | Range stop => (0 <=? x)%Z && (x <? stop)%Z
  | Tuple items => bool_decide (x ∈ items)
  | IntSet s => bool_decide (x ∈ s)
  end.

(* ================================================================== *)
(** * teletext.file: FileChunker                                       *)
(* ================================================================== *)

(** [f.read(size)] at byte offset [pos]: what is left of the stream, at most
    [size] bytes. *)
Definition read_at (f : list byte) (pos size : nat) : list byte :=
  take size (drop pos f).

(** A bound that is absent ([None]) is never reached. *)
Definition reached (bound : option nat) (n : nat) : bool :=
  match bound with
  | Some b => b <=? n
  | None => false
  end.

(** Modelled from the spec: the iteration of FileChunker (teletext/file.py is
    not among the sources).  Chunk number [index] is the [size] bytes at
    offset [index * size]; the index starts at [start], increments by [step],
    and the iteration halts at [stop], after [limit] chunks, or at the end of
    the stream, where a short final chunk is discarded.  [fuel] bounds the
    number of iterations. *)
Fixpoint chunk_loop (fuel : nat) (f : list byte) (size : nat)
    (stop limit : option nat) (step index emitted : nat) : list (nat * list byte) :=
  match fuel with
  | O => []
  | S fuel' =>
      if reached stop index then []
      else if reached limit emitted then []
      else
        let chunk := read_at f (index * size) size in
        if length chunk <? size then []
        else (index, chunk) ::
             chunk_loop fuel' f size stop limit step (index + step) (S emitted)
  end.

(** Modelled from the spec: FileChunker(f, size, start, stop, step, limit),
    as the list of the [(index, chunk)] pairs it yields.  With [size] and
    [step] at least 1 no run takes more than [length f + 1] iterations
    ([chunk_loop_fuel] below); with [size = 0] or [step = 0], which the spec
    leaves open, the fuel cuts the iteration. *)
Definition FileChunker (f : list byte) (size start : nat) (stop : option nat)
    (step : nat) (limit : option nat) : list (nat * list byte) :=
  chunk_loop (S (length f)) f size stop limit step start 0.

(** The pairs a run of [n] full chunks yields from [index] on. *)
Definition chunk_run (f : list byte) (size step index n : nat) : list (nat * list byte) :=
  (λ i, (index + i * step, read_at f ((index + i * step) * size) size)) <$> seq 0 n.

(** The number of indices [start, start + step, ...] below [stop]. *)
Definition ceil_div (a b : nat) : nat := (a + b - 1) / b.

(* ================================================================== *)
(** * The rest of the package, as cli.py and celp.py use it            *)
(* ================================================================== *)

(** Modelled from the spec: Packet (teletext/packet.py is not among the
    sources) stores the payload it is constructed with, plus a sequence
    number. *)
Record Packet := mkPacket { _array : list byte; _number : Z }.

(** Modelled from the spec: [Packet(data, number)] on the objects a chunk
    unpacks to; the payload is stored as it is given.  The specification
    describes a packet of 42 bytes and does not say what the constructor does
    with another length: the model stores it as well, which matters only on
    the [--wst] path, where line 112 lets 43 bytes through. *)
Definition Packet_init (data number : pyobj) : outcome Packet :=
  match data, number with
  | PyBytes b, PyInt n => Returned (mkPacket b n)
  | _, _ => Raised TypeError
  end.

(** [teletext.coding.hamming8_decode], whose table is not among the sources:
    a parameter.  celp.py uses its result as an integer. *)
Class Coding := { hamming8_decode : byte → Z }.

(** [p.mrag.magazine] and [p.mrag.row], decoded by the absent Packet class:
    parameters. *)
Class Mrag := { mrag_magazine : Packet → Z; mrag_row : Packet → Z }.

(** [pipeline.paginate] and [pipeline.subpage_squash], not among the sources:
    parameters.  A page is the list of its packets. *)
Class Pipeline := {
  paginate : list Packet → container → container → list (list Packet);
  subpage_squash : list (list Packet) → Z → list (list Packet)
}.



(** The capture configuration; of its fields the command layer reads only
    [line_length]. *)
Record Config := mkConfig { line_length : nat }.

(** [Line(chunk, number, extra_roll=...)] of teletext/vbi/line.py. *)
Record Line := mkLine {
  line_samples : list byte;
  line_number : nat;
  line_extra_roll : Z
}.

(** The signal processing of the absent Line class: parameters.  [is_teletext]
    is the flag of the clock-run-in search, [slice_bytes] and
    [deconvolve_bytes] the 45 bytes each bit recovery assembles (the second one
    with or without CUDA), [framing_ok] the check of the 3-byte clock run-in
    and framing code. *)
Class LineDsp := {
  is_teletext : Config → Line → bool;
  slice_bytes : Config → Line → list byte;
  deconvolve_bytes : Config → bool → Line → list byte;
  framing_ok : list byte → bool
}.

(** The elements an iteration over [tqdm(items)] delivers: those of [items],
    unchanged and in order.  The bar that tqdm draws on sys.stderr while it
    iterates is not part of this model; no statement below is about it. *)
Definition tqdm {A} (items : list A) : list A := items.

(** Modelled from the spec: the statistics taps of teletext/stats.py pass
    every element through unchanged while they count. *)
Definition MagHistogram (packets : list Packet) : list Packet := packets.

(** Modelled from the spec: a transparent tap, as [MagHistogram]. *)
Definition RowHistogram (packets : list Packet) : list Packet := packets.

(** Modelled from the spec: a transparent tap, as [MagHistogram]. *)
Definition ErrorHistogram (packets : list Packet) : list Packet := packets.

(** Modelled from the spec: a transparent tap over the lines. *)
Definition Rejects (lines : list Line) : list Line := lines.

Section line.
Context `{Mrag} `{LineDsp}.

(** Modelled from the spec: what [Line.slice] and [Line.deconvolve] do with
    the 45 recovered bytes: validate the framing, build the packet from
    bytes 3..45, decode its MRAG, and return None unless the magazine is in
    [mags] and the row in [rows]. *)
Definition Line_frame (recovered : list byte) (number : nat)
    (mags rows : container) : option Packet :=
  if framing_ok (py_slice 0 3 recovered) then
    let p := mkPacket (py_slice 3 45 recovered) (Z.of_nat number) in
    if contains mags (mrag_magazine p) && contains rows (mrag_row p)
    then Some p else None
  else None.

(** Modelled from the spec: [l.slice(mags, rows)]. *)
Definition Line_slice (config : Config) (mags rows : container) (l : Line)
    : option Packet :=
  Line_frame (slice_bytes config l) (line_number l) mags rows.

(** Modelled from the spec: [l.deconvolve(mags, rows)]. *)
Definition Line_deconvolve (config : Config) (cuda : bool)
    (mags rows : container) (l : Line) : option Packet :=
  Line_frame (deconvolve_bytes config cuda l) (line_number l) mags rows.
End line.

(* ================================================================== *)
(** * teletext/cli.py                                                  *)
(* ================================================================== *)

(** What [chunker(size)] yields, as the Python tuple [(number, chunk)]. *)
Definition chunk_tuple (c : nat * list byte) : pyobj :=
  PyTuple [PyInt (Z.of_nat c.1); PyBytes c.2].

(** [chunks.postfix.append(tap)]: [chunks.postfix] is the StatsList a command
    creates when one of the statistics it names is asked for, and None
    otherwise, which has no [append]. *)
Definition postfix_append {A} (has_stats : bool) (tap : A) : outcome A :=
  if has_stats then Returned tap else Raised AttributeError.

(** The three optional histograms, attached as every command does (lines
    127-135, 388-396, 433-441). *)
Definition histograms (progress mag_hist row_hist err_hist has_stats : bool)
    (packets : list Packet) : outcome (list Packet) :=
  packets ← (if progress && mag_hist
             then postfix_append has_stats (MagHistogram packets) else mret packets);
  packets ← (if progress && row_hist
             then postfix_append has_stats (RowHistogram packets) else mret packets);
  if progress && err_hist
  then postfix_append has_stats (ErrorHistogram packets) else mret packets.

Section packetreader.
Context `{Mrag}.

(** packetreader, lines 110-114: the chunks of a t42 stream.  With [wst] each
    element of [chunker(43)] goes through [c[:42]]. *)
Definition packetreader_chunks (chunker : nat → list (nat * list byte))
    (wst : bool) : outcome (list pyobj) :=
  if wst then mapM (λ c, py_getslice_to 42 (chunk_tuple c)) (chunker 43)
  else mret (chunk_tuple <$> chunker 42).

(** Line 124: [Packet(data, number) for number, data in chunks]. *)
Definition packetreader_construct (chunks : list pyobj) : outcome (list Packet) :=
  mapM (λ c, '(number, data) ← py_unpack2 c; Packet_init data number) chunks.

(** Line 125: the magazine and row filter. *)
Definition mrag_selected (mags rows : container) (p : Packet) : bool :=
  contains mags (mrag_magazine p) && contains rows (mrag_row p).

(** packetreader: the packet stream handed to the wrapped command.
    [progress] is the tri-state option (None when not given). *)
Definition packetreader (chunker : nat → list (nat * list byte)) (wst : bool)
    (mags rows : container) (progress : option bool)
    (mag_hist row_hist err_hist : bool) : outcome (list Packet) :=
  chunks ← packetreader_chunks chunker wst;
  let progress := default true progress in
  let chunks := if progress then tqdm chunks else chunks in
  let has_stats := progress && (mag_hist || row_hist) in
  packets ← packetreader_construct chunks;
  let packets := filter (λ p, mrag_selected mags rows p) packets in
  histograms progress mag_hist row_hist err_hist has_stats packets.
End packetreader.

Section vbi_commands.
Context `{Mrag} `{LineDsp}.

(** The lines a raw VBI command builds from its chunks (lines 380-383 and
    425-428). *)
Definition vbi_lines (chunks : list (nat * list byte)) (extra_roll : Z)
    (progress rejects has_stats : bool) : outcome (list Line) :=
  let lines := (λ c, mkLine c.2 c.1 extra_roll) <$> chunks in
  if progress && rejects then postfix_append has_stats (Rejects lines)
  else mret lines.

(** [deconvolve], lines 362-398. *)
Definition deconvolve (chunker : nat → list (nat * list byte))
    (mags rows : container) (config : Config) (force_cpu : bool)
    (extra_roll : Z) (progress mag_hist row_hist err_hist rejects : bool)
    : outcome (list Packet) :=
  let chunks := chunker (line_length config) in
  let chunks := if progress then tqdm chunks else chunks in
  let has_stats := progress && (mag_hist || row_hist || rejects) in
  lines ← vbi_lines chunks extra_roll progress rejects has_stats;
  let packets :=
    Line_deconvolve config (negb force_cpu) mags rows <$>
      filter (λ l, is_teletext config l) lines in
  let packets := omap id packets in
  histograms progress mag_hist row_hist err_hist has_stats packets.

(** [slice], lines 409-443. *)
Definition slice (chunker : nat → list (nat * list byte))
    (mags rows : container) (config : Config)
    (extra_roll : Z) (progress mag_hist row_hist err_hist rejects : bool)
    : outcome (list Packet) :=
  let chunks := chunker (line_length config) in
  let chunks := if progress then tqdm chunks else chunks in
  let has_stats := progress && (mag_hist || row_hist || rejects) in
  lines ← vbi_lines chunks extra_roll progress rejects has_stats;
  let packets :=
    Line_slice config mags rows <$> filter (λ l, is_teletext config l) lines in
  let packets := omap id packets in
  histograms progress mag_hist row_hist err_hist has_stats packets.
End vbi_commands.

(* ------------------------------------------------------------------ *)
(** ** Reading the input, draining the output                           *)
(* ------------------------------------------------------------------ *)

(** The input file of a command: whether it is a terminal, whether it is a
    FIFO, and the bytes it delivers. *)
Record InputFile := mkInput {
  input_isatty : bool;
  input_is_fifo : bool;
  input_content : list byte
}.

(** The [progress] keyword of a wrapper: absent from [kwargs] ([None]), or
    present with the tri-state value of the flag. *)
Definition progress_kw := option (option bool).

(** chunkreader, lines 87-98: the usage error on a terminal comes first; the
    chunker is built, and the wrapped function called, only after it. *)
Definition chunkreader {R}
    (f : (nat → list (nat * list byte)) → progress_kw → outcome R)
    (input : InputFile) (start : nat) (stop : option nat) (step : nat)
    (limit : option nat) (progress : progress_kw) : outcome R :=
  if input_isatty input then
    Raised (UsageError "No input file and stdin is a tty - exiting.")
  else
    let progress :=
      match progress with
      | Some None => if input_is_fifo input then Some (Some false) else Some None
      | other => other
      end in
    let chunker := λ size, FileChunker (input_content input) size start stop step limit in
    f chunker progress.

(** What one step of a [for] loop over a stream meets: the next element, or a
    KeyboardInterrupt raised while the loop waits for it. *)
Inductive event (A : Type) :=
  | Item (a : A)
  | Interrupt.
Arguments Item {A} a.
Arguments Interrupt {A}.

(** The run of a loop over [items]: undisturbed, or interrupted once [k]
    elements have been delivered. *)
Definition interrupted {A} (interrupt : option nat) (items : list A) : list (event A) :=
  match interrupt with
  | None => Item <$> items
  | Some k => (Item <$> take k items) ++ [Interrupt]
  end.

(** [for p in packets: pass] (packetwriter, lines 160-161): no handler, so an
    interrupt leaves the loop as an exception. *)
Fixpoint drain {A} (events : list (event A)) : outcome unit :=
  match events with
  | [] => Returned tt
  | Item _ :: rest => drain rest
  | Interrupt :: _ => Raised KeyboardInterrupt
  end.

(** Modelled from the spec: [pipeline.to_file] writes each packet to a sink and
    passes it on. *)
Definition to_file {A} (packets : list A) (sink : string * bool) : list A := packets.

(** packetwriter, lines 148-161.  [output] lists the sinks as (kind, is a
    terminal); [f] is the wrapped function, whose exceptions, raised when the
    stream is built or while it is drained, leave the wrapper. *)
Definition packetwriter {A} (output : list (string * bool)) (progress : progress_kw)
    (f : progress_kw → outcome (list A)) (interrupt : option nat) : outcome unit :=
  let progress :=
    match progress with
    | Some None => if existsb snd output then Some (Some false) else Some None
    | other => other
    end in
  packets ← f progress;
  let packets := foldl to_file packets output in
  drain (interrupted interrupt packets).

(** The exit status click's standalone runner gives a command: 0 when the
    callback returns, the exception's own code (2) for a usage error, 1 for an
    abort on KeyboardInterrupt and for any other exception. *)
Definition exit_status {A} (o : outcome A) : Z :=
  match o with
  | Returned _ => 0
  | Raised (UsageError _) => 2
  | Raised _ => 1
  end.

Section commands.
Context `{Mrag} `{LineDsp}.

(** The [slice] command with its decorators: packetwriter, then chunkreader,
    then the body. *)
Definition slice_command (output : list (string * bool)) (input : InputFile)
    (start : nat) (stop : option nat) (step : nat) (limit : option nat)
    (mags rows : container) (config : Config) (extra_roll : Z)
    (progress mag_hist row_hist err_hist rejects : bool)
    (interrupt : option nat) : outcome unit :=
  packetwriter output (Some (Some progress))
    (λ progress_kw,
       chunkreader
         (λ chunker progress_kw,
            slice chunker mags rows config extra_roll
              (default true (progress_kw ≫= id))
              mag_hist row_hist err_hist rejects)
         input start stop step limit progress_kw)
    interrupt.
End commands.

(* ------------------------------------------------------------------ *)
(** ** filter and squash                                                *)
(* ------------------------------------------------------------------ *)

(** The whitespace [int] skips around a literal.  A character of a string is
    a code point below 256 here: tab to carriage return and space, and of
    the code points above 127 the next-line control 0x85 and the no-break
    space 0xa0.  The separators 0x1c to 0x1f, which [str.strip] removes, are
    not skipped by [int]. *)
Definition is_space (c : Ascii.ascii) : bool :=
  let n := Ascii.nat_of_ascii c in
  ((9 <=? n) && (n <=? 13)) || (n =? 32) || (n =? 133) || (n =? 160).

Definition hex_digit_value (c : Ascii.ascii) : option Z :=
  let n := Ascii.nat_of_ascii c in
  if (48 <=? n) && (n <=? 57) then Some (Z.of_nat (n - 48))
  else if (97 <=? n) && (n <=? 102) then Some (Z.of_nat (n - 87))
  else if (65 <=? n) && (n <=? 70) then Some (Z.of_nat (n - 55))
  else None.

Fixpoint skip_spaces (s : string) : string :=
  match s with
  | String c r => if is_space c then skip_spaces r else s
  | EmptyString => s
  end.

(** The digits of a literal, single underscores allowed between them: the
    value, the number of digits and what follows; None on a doubled or a
    trailing underscore. *)
Fixpoint scan_hex (acc : Z) (digits : nat) (prev_underscore : bool) (s : string)
    : option (Z * nat * string) :=
  match s with
  | String c r =>
      match hex_digit_value c with
      | Some d => scan_hex (16 * acc + d) (S digits) false r
      | None =>
          if Ascii.eqb c "_"%char then
            if prev_underscore then None else scan_hex acc digits true r
          else if prev_underscore then None else Some (acc, digits, s)
      end
  | EmptyString => if prev_underscore then None else Some (acc, digits, s)
  end.

(** [int(x, 16)] on a string of code points below 256: surrounding
    whitespace, an optional sign, an optional [0x] prefix (after which one
    underscore may stand), then the digits; a ValueError otherwise.  The
    message of the ValueError, which quotes the string, is not kept, and the
    decimal digits and spaces of the code points from 256 on, which [int]
    reads as well, are outside this model. *)
Definition int16 (x : string) : outcome Z :=
  let s := skip_spaces x in
  let '(negative, s) :=
    match s with
    | String "+"%char r => (false, r)
    | String "-"%char r => (true, r)
    | _ => (false, s)
    end in
  let s :=
    match s with
    | String "0"%char (String "x"%char r) | String "0"%char (String "X"%char r) =>
        match r with
        | String "_"%char r' => r'
        | _ => r
        end
    | _ => s
    end in
  match s with
  | String "_"%char _ => Raised ValueError
  | _ =>
      match scan_hex 0 0 false s with
      | Some (v, S _, rest) =>
          match skip_spaces rest with
          | EmptyString => Returned (if negative then (- v)%Z else v)
          | _ => Raised ValueError
          end
      | _ => Raised ValueError
      end
  end.

(** Lines 182-186 (and 188-192, 211-219): an option that was not given yields
    the default range; one that was given yields the set of its values, read
    as hexadecimal.  The boolean tells which. *)
Definition accepted_set (dflt : container) (given : option (list string))
    : outcome (container * bool) :=
  match given with
  | None | Some [] => mret (dflt, false)
  | Some xs => values ← mapM int16 xs; mret (IntSet (list_to_set values), true)
  end.

Section filter_squash.
Context `{Pipeline}.

(** [filter], lines 178-198 ([filter] itself names the list operation
    here). *)
Definition teletext_filter (packets : list Packet)
    (pages subpages : option (list string)) (paginate_flag : bool)
    : outcome (list Packet) :=
  '(pages, given) ← accepted_set (Range 0x900) pages;
  let paginate_flag := if (given : bool) then true else paginate_flag in
  '(subpages, given) ← accepted_set (Range 0x3f7f) subpages;
  let paginate_flag := if (given : bool) then true else paginate_flag in
  if paginate_flag then mret (concat (paginate packets pages subpages))
  else mret packets.

End filter_squash.

(* ------------------------------------------------------------------ *)
(** ** record                                                           *)
(* ------------------------------------------------------------------ *)

(** [struct.unpack('<I', b)]: exactly four bytes, least significant first. *)
Definition struct_unpack_le_u32 (b : list byte) : outcome Z :=
  match b with
  | [b0; b1; b2; b3] =>
      Returned (byte_val b0 + 256 * byte_val b1 + 65536 * byte_val b2
                + 16777216 * byte_val b3)%Z
  | _ => Raised StructError
  end.

(** The state of the capture loop: what has been written to [output], the
    text record itself has passed to [sys.stderr.write] (line 320), and the
    two local variables. *)
Record record_state := mkRecord {
  rec_output : list byte;
  rec_messages : string;
  prev_seq : option Z;
  dropped : nat
}.

(** The drop test of line 318. *)
Definition frame_dropped (prev : option Z) (seq : Z) : bool :=
  match prev with
  | Some p => negb (seq =? p + 1)%Z
  | None => false
  end.

(** The sequence number a frame carries (0 for a frame too short to have
    one). *)
Definition frame_seq (chunk : list byte) : Z :=
  match struct_unpack_le_u32 (py_slice_last 4 chunk) with
  | Returned seq => seq
  | Raised _ => 0%Z
  end.

(** The number of frames of a run that the drop test flags, given the
    sequence numbers of the frames in order. *)
Fixpoint count_drops (prev : option Z) (seqs : list Z) : nat :=
  match seqs with
  | [] => 0
  | s :: rest => (if frame_dropped prev s then 1 else 0) + count_drops (Some s) rest
  end.

(** The body of the loop, lines 316-321, for one frame.  The frame is written
    before its sequence number is unpacked, so it stays written if that
    fails. *)
Definition record_frame (st : record_state) (chunk : list byte)
    : record_state * option exn :=
  let out := rec_output st ++ chunk in
  match struct_unpack_le_u32 (py_slice_last 4 chunk) with
  | Raised e => (mkRecord out (rec_messages st) (prev_seq st) (dropped st), Some e)
  | Returned seq =>
      if frame_dropped (prev_seq st) seq then
        let d := S (dropped st) in
        (mkRecord out (rec_messages st +:+ "Frame drop? " +:+ pretty d +:+ newline)
                  (Some seq) d, None)
      else (mkRecord out (rec_messages st) (Some seq) (dropped st), None)
  end.

(** The loop of lines 315-321: the state it ends in, and the exception that
    ended it, if any. *)
Fixpoint record_loop (st : record_state) (events : list (event (nat * list byte)))
    : record_state * option exn :=
  match events with
  | [] => (st, None)
  | Interrupt :: _ => (st, Some KeyboardInterrupt)
  | Item (n, chunk) :: rest =>
      match record_frame st chunk with
      | (st, None) => record_loop st rest
      | (st, Some e) => (st, Some e)
      end
  end.

(** record(output, device, config), lines 308-324: frames of
    [line_length * 32] bytes, the loop, and the handler that swallows
    KeyboardInterrupt and nothing else.  [interrupt] says whether, and after
    how many frames, the capture is interrupted. *)
Definition record (output : list byte) (device : list byte) (config : Config)
    (interrupt : option nat) : record_state * outcome unit :=
  let chunks := FileChunker device (line_length config * 32) 0 None 1 None in
  let bar := tqdm chunks in
  let st := mkRecord output "" None 0 in
  match record_loop st (interrupted interrupt bar) with
  | (st, None) => (st, Returned tt)
  | (st, Some KeyboardInterrupt) => (st, Returned tt)
  | (st, Some e) => (st, Raised e)
  end.

(* ------------------------------------------------------------------ *)
(** ** Optional features: spellcheck and vbiview                        *)
(* ------------------------------------------------------------------ *)

(** spellcheck, lines 236-244.  [import] is the result of
    [from .spellcheck import SpellChecker]: the checker, as the function
    [SpellChecker(language).spellcheck_iter], or the exception raised. *)
Definition spellcheck (import : outcome (string → list Packet → list Packet))
    (packets : list Packet) (language : string) : outcome (list Packet) :=
  match import with
  | Raised (ModuleNotFoundError name msg) =>
      if String.eqb name "enchant" then
        Raised (UsageError
          (msg +:+ ". PyEnchant is not installed. Spelling checker is not available."))
      else Raised (ModuleNotFoundError name msg)
  | Raised e => Raised e
  | Returned SpellChecker => Returned (SpellChecker language packets)
  end.

(** vbiview, lines 334-350.  [import] is the result of
    [from teletext.vbi.viewer import VBIViewer]: the viewer, run on the lines
    and the configuration, or the exception raised. *)
Definition vbiview (import : outcome (list Line → Config → unit))
    (chunker : nat → list (nat * list byte)) (config : Config) : outcome unit :=
  match import with
  | Raised (ModuleNotFoundError name msg) =>
      if String.prefix "OpenGL" name then
        Raised (UsageError
          (msg +:+ ". PyOpenGL is not installed. VBI viewer is not available."))
      else Raised (ModuleNotFoundError name msg)
  | Raised e => Raised e
  | Returned VBIViewer =>
      let chunks := chunker (line_length config) in
      let lines := (λ c, mkLine c.2 c.1 (-3)) <$> chunks in
      Returned (VBIViewer lines config)
  end.

(* ================================================================== *)
(** * teletext/celp.py                                                 *)
(* ================================================================== *)

(** [l[i]] on a list or an array, with Python's negative indices. *)
Definition py_getitem {A} (l : list A) (i : Z) : outcome A :=
  let n := Z.of_nat (length l) in
  let j := if (i <? 0)%Z then (i + n)%Z else i in
  if (0 <=? j)%Z && (j <? n)%Z then
    match l !! Z.to_nat j with
    | Some a => Returned a
    | None => Raised IndexError
    end
  else Raised IndexError.

Definition hex_digit (d : N) : Ascii.ascii :=
  Ascii.ascii_of_N (if (d <? 10)%N then 48 + d else 87 + d).

Fixpoint hex_digits (fuel : nat) (n : N) (acc : string) : string :=
  match fuel with
  | O => acc
  | S fuel' =>
      let acc := String (hex_digit (n mod 16)) acc in
      if (n / 16 =? 0)%N then acc else hex_digits fuel' (n / 16) acc
  end.

(** The lower-case hexadecimal digits of [n], without leading zeros. *)
Definition hex_N (n : N) : string := hex_digits (S (N.to_nat (N.log2 n))) n "".

(** [hex(z)] *)
Definition hex (z : Z) : string :=
  match z with
  | Zneg p => "-0x" +:+ hex_N (Npos p)
  | _ => "0x" +:+ hex_N (Z.to_N z)
  end.

(** [b.hex()]: two digits per byte. *)
Definition bytes_hex (b : list byte) : string :=
  foldr (λ x acc, String (hex_digit (Byte.to_N x / 16))
                    (String (hex_digit (Byte.to_N x mod 16)) acc)) "" b.

Definition dblevels : list Z := [0; 4; 8; 12; 18; 24; 30; 0]%Z.

Definition servicetypes : list string := [
  "Single-channel mode using 1 VBI line per frame";
  "Single-channel mode using 2 VBI lines per frame";
  "Single-channel mode using 3 VBI lines per frame";
  "Single-channel mode using 4 VBI lines per frame";
  "Mute Channel 1";
  "Two-channel Mode using 2 VBI lines per frame";
  "Mute Channel 2";
  "Two-channel Mode using 4 VBI lines per frame"
].

(** The values celp_print computes for a CELP packet (lines 29-34). *)
Record celp_fields := mkCelp {
  dcn : Z;
  service : Z;
  control : Z;
  frame0 : list byte;
  frame1 : list byte
}.

(** What celp_print has produced: the text printed and the bytes written to
    the file [o]. *)
Record celp_output := mkCelpOut { printed : string; written : list byte }.

Section celp_print.
Context `{Coding} `{Mrag}.

(** Lines 28-34: the test on the MRAG and the five values; None for a packet
    that is not on magazine 4 or whose row is not in [rows]. *)
Definition celp_decode (rows : container) (p : Packet) : outcome (option celp_fields) :=
  if (mrag_magazine p =? 4)%Z && contains rows (mrag_row p) then
    let dcn := (mrag_magazine p + Z.shiftl (Z.land (mrag_row p) 1) 3)%Z in
    b2 ← py_getitem (_array p) 2;
    let control := hamming8_decode b2 in
    b3 ← py_getitem (_array p) 3;
    let service := hamming8_decode b3 in
    let frame0 := py_slice 4 23 (_array p) in
    let frame1 := py_slice 23 42 (_array p) in
    mret (Some (mkCelp dcn service control frame0 frame1))
  else mret None.

(** Lines 36-48: the text printed for a packet when [o] is None. *)
Definition celp_text (p : Packet) (c : celp_fields) : outcome string :=
  let head := "DCN: " +:+ pretty (dcn c) +:+ " (" +:+ pretty (mrag_magazine p)
              +:+ "/" +:+ pretty (mrag_row p) +:+ ") " in
  detail ←
    (if (dcn c =? 4)%Z then
       db ← py_getitem dblevels (Z.land (control c) 7);
       mret ("Programme-related audio. Service: "
             +:+ (if (service c =? 0)%Z then "AUDETEL" else hex (service c))
             +:+ " Control: " +:+ hex (control c) +:+ " " +:+ pretty db
             +:+ " dB "
             +:+ (if (Z.land (control c) 8 =? 0)%Z then "" else "(muted)")
             +:+ newline)
     else if (dcn c =? 12)%Z then
       if negb (Z.land (service c) 8 =? 0)%Z then
         b3 ← py_getitem (_array p) 3;
         mret ("Programme-independant audio. User-defined service "
               +:+ hex (Z.land (service c) 7) +:+ " " +:+ hex (byte_val b3)
               +:+ newline)
       else
         ty ← py_getitem servicetypes (service c);
         mret ("Programme-independant audio. " +:+ ty +:+ " "
               +:+ (if (control c =? 0)%Z then ""
                    else "Control: " +:+ hex (control c))
               +:+ newline)
     else mret "");
  mret (head +:+ detail +:+ bytes_hex (frame0 c) +:+ " " +:+ bytes_hex (frame1 c)
        +:+ newline).

(** The body of the loop for one packet.  [o] is true when a file is given;
    then the two frames are written to it, otherwise the text is printed.
    An exception ends the run (the output so far is not kept by the
    model). *)
Definition celp_print_packet (rows : container) (o : bool)
    (out : celp_output) (p : Packet) : outcome celp_output :=
  fields ← celp_decode rows p;
  match fields with
  | None => mret out
  | Some c =>
      if o then mret (mkCelpOut (printed out) (written out ++ frame0 c ++ frame1 c))
      else text ← celp_text p c; mret (mkCelpOut (printed out +:+ text) (written out))
  end.

(** celp_print(packets, rows, o) *)
Fixpoint celp_print_from (rows : container) (o : bool) (out : celp_output)
    (packets : list Packet) : outcome celp_output :=
  match packets with
  | [] => mret out
  | p :: rest =>
      out ← celp_print_packet rows o out p;
      celp_print_from rows o out rest
  end.

Definition celp_print (packets : list Packet) (rows : container) (o : bool)
    : outcome celp_output :=
  celp_print_from rows o (mkCelpOut "" []) packets.
End celp_print.

(** The bit layout both celp_plot and celp_generate_audio carry, with its
    leading 0 (so that the cumulative sums are the field boundaries). *)
Definition widths : list nat := [
  0;
  3; 4; 4; 4; 4; 4; 4; 4; 3; 3;
  5; 5; 5; 5;
  5; 5; 5; 5;
  7; 7; 7; 7;
  8; 8; 8; 8;
  3; 3; 3; 3;
  3
].

(** [np.cumsum] *)
Fixpoint cumsum_from (acc : nat) (l : list nat) : list nat :=
  match l with
  | [] => []
  | x :: r => (acc + x) :: cumsum_from (acc + x) r
  end.

Definition cumsum (l : list nat) : list nat := cumsum_from 0 l.

Definition g : list nat := cumsum widths.

(** The eight bits of a byte, least significant first. *)
Definition byte_bits_little (b : byte) : list bool :=
  (λ i, Z.testbit (byte_val b) (Z.of_nat i)) <$> seq 0 8.

(** [np.unpackbits(a, bitorder='little')] on the bytes of [a], flattened. *)
Definition unpackbits_little (a : list byte) : list bool :=
  a ≫= byte_bits_little.

(** The value of a group of bits, first bit least significant. *)
Fixpoint bits_value (bits : list bool) : Z :=
  match bits with
  | [] => 0%Z
  | b :: r => (Z.b2z b + 2 * bits_value r)%Z
  end.

Fixpoint packbits_go (fuel : nat) (bits : list bool) : list Z :=
  match fuel, bits with
  | _, [] => []
  | O, _ => []
  | S fuel', _ => bits_value (take 8 bits) :: packbits_go fuel' (drop 8 bits)
  end.

(** [np.packbits(bits, bitorder='little')]: one byte per group of eight bits,
    the last group padded with zeros. *)
Definition packbits_little (bits : list bool) : list Z :=
  packbits_go (length bits) bits.

(** [a.reshape(-1, k)]: rows of [k] elements; a ValueError when the length is
    not a multiple of [k]. *)
Fixpoint rows_go {A} (fuel k : nat) (l : list A) : list (list A) :=
  match fuel, l with
  | _, [] => []
  | O, _ => []
  | S fuel', _ => take k l :: rows_go fuel' k (drop k l)
  end.

Definition reshape_rows {A} (k : nat) (l : list A) : outcome (list (list A)) :=
  if (k =? 0) || negb (length l mod k =? 0) then Raised ValueError
  else Returned (rows_go (length l) k l).

(** Lines 106-113 of celp_generate_audio: the 152-bit frames of a dump, both
    frames of every packet or only frame 0 or frame 1. *)
Definition celp_frames (data : list byte) (frame : option Z)
    : outcome (list (list bool)) :=
  pairs ← reshape_rows 38 data;
  let pairs := (λ pr, (unpackbits_little (take 19 pr), unpackbits_little (drop 19 pr)))
                 <$> pairs in
  match frame with
  | Some 0%Z => mret (fst <$> pairs)
  | Some 1%Z => mret (snd <$> pairs)
  | _ => mret (pairs ≫= λ pr, [pr.1; pr.2])
  end.

(** Lines 138-141: slot [n] of [decoded_frame], the packed bits
    [raw_frame[g[n]:g[n+1]]]; storing it needs the packed array to have one
    element. *)
Definition decode_field (raw_frame : list bool) (n : nat) : outcome Z :=
  lo ← py_getitem g (Z.of_nat n);
  hi ← py_getitem g (Z.of_nat (n + 1));
  match packbits_little (py_slice lo hi raw_frame) with
  | [v] => Returned v
  | _ => Raised ValueError
  end.

(** Lines 137-141: [decoded_frame], the fields [range(len(g) - 2)]. *)
Definition decode_frame (raw_frame : list bool) : outcome (list Z) :=
  mapM (decode_field raw_frame) (seq 0 (length g - 2)).

(** The [decoded_frame] of every iteration of celp_generate_audio; the audio
    synthesised from it is floating point and not modelled. *)
Definition celp_decoded_frames (data : list byte) (frame : option Z)
    : outcome (list (list Z)) :=
  frames ← celp_frames data frame;
  mapM decode_frame frames.

(* ================================================================== *)
(** * An instance of the parameters, for running the definitions        *)
(* ================================================================== *)

(** The byte of value [n] (0 above 255). *)
Definition byte_of_nat (n : nat) : byte := default Byte.x00 (Byte.of_nat n).

(** The four message bits of a Hamming 8/4 byte (bits 1, 3, 5 and 7): the
    value an error-free codeword decodes to.  It stands for the decoder in
    the closed examples. *)
Definition hamming8_message (b : byte) : Z :=
  let v := byte_val b in
  (Z.b2z (Z.testbit v 1) + 2 * Z.b2z (Z.testbit v 3) +
   4 * Z.b2z (Z.testbit v 5) + 8 * Z.b2z (Z.testbit v 7))%Z.

Definition example_coding : Coding := {| hamming8_decode := hamming8_message |}.

(** Modelled from the spec: the MRAG is two Hamming nibbles in bytes 0 and 1;
    the low three bits of the first are the magazine, 0 standing for 8, the
    remaining five bits the row. *)
Definition example_mrag : Mrag := {|
  mrag_magazine p :=
    match _array p with
    | b0 :: _ =>
        let m := Z.land (hamming8_message b0) 7 in
        if (m =? 0)%Z then 8%Z else m
    | [] => 8%Z
    end;
  mrag_row p :=
    match _array p with
    | b0 :: b1 :: _ =>
        Z.lor (Z.shiftr (hamming8_message b0) 3) (Z.shiftl (hamming8_message b1) 1)
    | _ => 0%Z
    end
|}.

(** A stand-in for the signal processing, for the examples only: the samples
    of a line are taken to be its 45 bytes already, every line of at least 45
    samples is teletext, and the framing must read 0x55 0x55 0x27. *)
Definition example_dsp : LineDsp := {|
  is_teletext _ l := bool_decide (45 ≤ length (line_samples l));
  slice_bytes _ l := take 45 (line_samples l);
  deconvolve_bytes _ _ l := take 45 (line_samples l);
  framing_ok b := bool_decide (b = [Byte.x55; Byte.x55; Byte.x27])
|}.

(** A t42 packet of the examples: the two MRAG bytes, then 40 times [fill]. *)
Definition example_payload (m0 m1 fill : byte) : list byte :=
  m0 :: m1 :: replicate 40 fill.

(** A stand-in for the pipeline, for the examples only: paginate keeps, as
    one page, the packets whose number is in [pages] and whose payload length
    is in [subpages]; subpage_squash keeps every page. *)
Definition example_pipeline : Pipeline := {|
  paginate packets pages subpages :=
    [base.filter (λ p, contains pages (_number p) &&
                       contains subpages (Z.of_nat (length (_array p)))) packets];
  subpage_squash pages _ := pages
|}.



(* ================================================================== *)
(** * Reference values for the properties of record                     *)
(* ================================================================== *)

(** The text of [d] drop messages: one line per drop, numbered from 1. *)
Fixpoint drop_messages (d : nat) : string :=
  match d with
  | O => ""
  | S d' => drop_messages d' +:+ "Frame drop? " +:+ pretty (S d') +:+ newline
  end.

(** Sequence numbers that go up by one from each frame to the next. *)
Fixpoint consecutive (prev : option Z) (seqs : list Z) : Prop :=
  match seqs with
  | [] => True
  | s :: rest =>
      match prev with
      | Some p => s = (p + 1)%Z
      | None => True
      end ∧ consecutive (Some s) rest
  end.

(* ================================================================== *)
(** * The filter command with its decorators                            *)
(* ================================================================== *)

Section filter_command.
Context `{Mrag} `{Pipeline}.

(** The [filter] command as click calls it: packetwriter, then chunkreader,
    then packetreader (lines 176-177 and 102-108), then the body.  [progress]
    is the tri-state flag of [--progress/--no-progress]. *)
Definition filter_command (output : list (string * bool)) (input : InputFile)
    (start : nat) (stop : option nat) (step : nat) (limit : option nat)
    (wst : bool) (mags rows : container) (progress : option bool)
    (mag_hist row_hist err_hist : bool)
    (pages subpages : option (list string)) (paginate_flag : bool)
    (interrupt : option nat) : outcome unit :=
  packetwriter output (Some progress)
    (λ progress_kw,
       chunkreader
         (λ chunker progress_kw,
            packets ← packetreader chunker wst mags rows (progress_kw ≫= id)
                        mag_hist row_hist err_hist;
            teletext_filter packets pages subpages paginate_flag)
         input start stop step limit progress_kw)
    interrupt.
End filter_command.

(** Whether the progress bar of a packet command is on: as the flag says, and
    when it is not given, on unless an output is a terminal or the input is a
    FIFO (packetwriter lines 150-153, chunkreader lines 92-94, packetreader
    lines 116-117). *)
Definition progress_shown (output : list (string * bool)) (input : InputFile)
    (progress : option bool) : bool :=
  match progress with
  | Some b => b
  | None => negb (existsb snd output) && negb (input_is_fifo input)
  end.

(* ================================================================== *)
(** * celp_plot                                                         *)
(* ================================================================== *)

(** celp_plot, lines 80-83 and 90-93: the series
    [np.packbits(frame[:, lo:hi].reshape(-1, w), axis=-1,
    bitorder='little').flatten()] over the frames of a dump: the bits
    [lo..hi] of every frame, cut into rows of [w] bits, each row packed. *)
Definition celp_plot_series (frames : list (list bool)) (lo hi w : nat)
    : outcome (list Z) :=
  rows ← reshape_rows w (frames ≫= py_slice lo hi);
  mret (rows ≫= packbits_little).


(* ------------------------------------------------------------------ *)
(** ** Keyword arguments of the commands                                *)
(* ------------------------------------------------------------------ *)

(** A function as a call by keyword sees it: its named parameters, those of
    them that have a default, and whether it collects the other keywords in
    [**kwargs]. *)
Record signature := mkSignature {
  parameters : list string;
  defaulted : list string;
  var_keyword : bool
}.

(** The call [f] with the keywords [given]: a TypeError when a parameter without default is
    not given, or when a keyword is no parameter and there is no [**kwargs];
    otherwise the keywords that [**kwargs] collects. *)
Definition call_keywords (s : signature) (given : list string)
    : outcome (list string) :=
  let kwargs := filter (λ k, k ∉ parameters s) given in
  if bool_decide (Forall (λ p, p ∈ given ∨ p ∈ defaulted s) (parameters s))
     && (var_keyword s || bool_decide (kwargs = []))
  then Returned kwargs
  else Raised TypeError.

(** The call [f(k=v, *args, **kwargs)] of the wrappers, [args] being empty:
    a keyword given twice is a TypeError as well. *)
Definition call_keyword (s : signature) (k : string) (kwargs : list string)
    : outcome (list string) :=
  if bool_decide (k ∈ kwargs) then Raised TypeError
  else call_keywords s (k :: kwargs).

(** Line 59: [wrapper(card, line_length=None, sample_rate=None,
    line_trim=None, line_start_range=None, *args, **kwargs)]. *)
Definition carduser_wrapper : signature :=
  mkSignature ["card"; "line_length"; "sample_rate"; "line_trim"; "line_start_range"]
              ["line_length"; "sample_rate"; "line_trim"; "line_start_range"] true.

(** Line 87: [wrapper(input, start, stop, step, limit, *args, **kwargs)]. *)
Definition chunkreader_wrapper : signature :=
  mkSignature ["input"; "start"; "stop"; "step"; "limit"] [] true.

(** Line 108: [wrapper(chunker, wst, mags, rows, progress, mag_hist, row_hist,
    err_hist, *args, **kwargs)]. *)
Definition packetreader_wrapper : signature :=
  mkSignature ["chunker"; "wst"; "mags"; "rows"; "progress"; "mag_hist";
               "row_hist"; "err_hist"] [] true.

(** Line 271: [urls(packets, editor)]. *)
Definition urls_signature : signature :=
  mkSignature ["packets"; "editor"] [] false.

(** Line 285: [html(packets, outdir, template, progress, mag_hist, row_hist)]. *)
Definition html_signature : signature :=
  mkSignature ["packets"; "outdir"; "template"; "progress"; "mag_hist"; "row_hist"]
              [] false.

(** Line 301: [record(output, device, config)]. *)
Definition record_signature : signature :=
  mkSignature ["output"; "device"; "config"] [] false.

(** The options and arguments the decorators declare; click calls the
    command with one keyword for each of them, named after the long option
    ([--line-length] is [line_length], [--progress/--no-progress] is
    [progress]). *)
Definition filterparams_options : list string := ["mags"; "rows"].

Definition progressparams_options : list string :=
  ["progress"; "mag_hist"; "row_hist"; "err_hist"].

Definition carduser_options (extended : bool) : list string :=
  (if extended then ["sample_rate"; "line_trim"; "line_start_range"] else [])
  ++ ["card"; "line_length"].

Definition chunkreader_options : list string :=
  ["input"; "start"; "stop"; "step"; "limit"].

Definition packetreader_options : list string :=
  chunkreader_options ++ ["wst"] ++ filterparams_options ++ progressparams_options.

(** Lines 268-270, 281-284 and 298-300: the decorators of urls, html and
    record. *)
Definition urls_options : list string := ["editor"] ++ packetreader_options.

Definition html_options : list string := ["outdir"; "template"] ++ packetreader_options.

Definition record_options : list string := ["device"] ++ carduser_options false.

Section wired_commands.
Context `{Mrag}.

(** A command that is a function [f] under [@packetreader] alone, as click
    calls it: the wrapper of chunkreader (lines 87-98) takes its five
    parameters and passes the other keywords on with [chunker]; the wrapper of
    packetreader (lines 108-137) takes its eight, builds the packet stream and
    calls [f(packets=packets, *args, **kwargs)].  [f] is its signature and its
    [body]. *)
Definition packetreader_command {R} (f : signature) (options : list string)
    (body : list Packet → outcome R)
    (input : InputFile) (start : nat) (stop : option nat) (step : nat)
    (limit : option nat) (wst : bool) (mags rows : container)
    (progress : option bool) (mag_hist row_hist err_hist : bool) : outcome R :=
  kwargs ← call_keywords chunkreader_wrapper options;
  chunkreader
    (λ chunker progress_kw,
       kwargs ← call_keyword packetreader_wrapper "chunker" kwargs;
       packets ← packetreader chunker wst mags rows (progress_kw ≫= id)
                   mag_hist row_hist err_hist;
       _ ← call_keyword f "packets" kwargs;
       body packets)
    input start stop step limit
    (if bool_decide ("progress" ∈ kwargs) then Some progress else None).

Definition urls_command {R} := @packetreader_command R urls_signature urls_options.

Definition html_command {R} := @packetreader_command R html_signature html_options.
End wired_commands.

(** A command that is a function [f] under [@carduser()] alone, as click
    calls it (lines 59-63): the wrapper takes [card] and [line_length], builds
    the Config and calls [f(config=config, *args, **kwargs)].  [config] is
    what [Config(...)] gives for the options, or the exception it raises. *)
Definition carduser_command {R} (f : signature) (options : list string)
    (config : outcome Config) (body : Config → outcome R) : outcome R :=
  kwargs ← call_keywords carduser_wrapper options;
  config ← config;
  _ ← call_keyword f "config" kwargs;
  body config.

(** The record command: [output] is what the body would write to, if it ran. *)
Definition record_command (config : outcome Config) (output device : list byte)
    (interrupt : option nat) : outcome record_state :=
  carduser_command record_signature record_options config
    (λ config, let r := record output device config interrupt in _ ← r.2; mret r.1).
(* ================================================================== *)
(** * Properties                                                        *)
(* ================================================================== *)

Section FileChunker_facts.
Variables (f : list byte) (size : nat) (stop limit : option nat) (step : nat).

Lemma read_at_full pos :
  pos + size ≤ length f → length (read_at f pos size) = size.
Proof.
  intros H. unfold read_at. rewrite length_take, length_drop. lia.
Qed.

Lemma read_at_length pos : length (read_at f pos size) ≤ size.
Proof. unfold read_at. rewrite length_take. lia. Qed.

Lemma read_at_short pos :
  1 ≤ size → length f ≤ pos → length (read_at f pos size) < size.
Proof.
  intros Hs H. unfold read_at. rewrite length_take, length_drop. lia.
Qed.

(** Every pair the loop yields is a full chunk read at its own index. *)
Lemma chunk_loop_elem fuel index emitted i c :
  (i, c) ∈ chunk_loop fuel f size stop limit step index emitted →
  length c = size ∧ c = read_at f (i * size) size ∧ index ≤ i.
Proof.
  revert index emitted.
  induction fuel as [|fuel IH]; intros index emitted; simpl.
  - intros H. by apply elem_of_nil in H.
  - destruct (reached stop index); [intros H; by apply elem_of_nil in H|].
    destruct (reached limit emitted); [intros H; by apply elem_of_nil in H|].
    destruct (Nat.ltb_spec (length (read_at f (index * size) size)) size) as [Hlt|Hge].
    + intros H. by apply elem_of_nil in H.
    + intros [Heq|Hin]%elem_of_cons.
      * inversion Heq; subst. pose proof (read_at_length (index * size)).
        repeat split; [lia|done].
      * apply IH in Hin. destruct Hin as (? & ? & ?). repeat split; auto. lia.
Qed.

(** Enough fuel: with [size] and [step] at least 1, more fuel than
    [length f + 1 - index] changes nothing. *)
Lemma chunk_loop_fuel fuel extra index emitted :
  1 ≤ size → 1 ≤ step → length f < fuel + index →
  chunk_loop (fuel + extra) f size stop limit step index emitted =
  chunk_loop fuel f size stop limit step index emitted.
Proof.
  intros Hsize Hstep. revert index emitted.
  induction fuel as [|fuel IH]; intros index emitted Hf.
  - simpl. destruct extra as [|extra]; [done|]. simpl.
    destruct (reached stop index); [done|].
    destruct (reached limit emitted); [done|].
    pose proof (read_at_short (index * size) Hsize) as Hshort.
    destruct (Nat.ltb_spec (length (read_at f (index * size) size)) size); [done|].
    exfalso. assert (length f ≤ index * size) by nia. specialize (Hshort H0). lia.
  - simpl.
    destruct (reached stop index); [done|].
    destruct (reached limit emitted); [done|].
    destruct (length (read_at f (index * size) size) <? size); [done|].
    f_equal. apply IH. lia.
Qed.
End FileChunker_facts.

Lemma ceil_div_0 b : 1 ≤ b → ceil_div 0 b = 0.
Proof. intros H. unfold ceil_div. apply Nat.div_small. lia. Qed.

Lemma ceil_div_step a b : 1 ≤ b → 1 ≤ a → ceil_div a b = S (ceil_div (a - b) b).
Proof.
  intros Hb Ha. unfold ceil_div.
  destruct (Nat.le_gt_cases b a) as [Hle|Hgt].
  - replace (a + b - 1) with ((a - b + b - 1) + 1 * b) by lia.
    rewrite Nat.div_add by lia. lia.
  - replace (a - b) with 0 by lia. simpl.
    rewrite (Nat.div_small (b - 1) b) by lia.
    symmetry. apply (Nat.div_unique _ _ 1 (a - 1)); lia.
  Qed.

Lemma ceil_div_exact k b : 1 ≤ b → ceil_div (k * b) b = (k * b) / b.
Proof.
  intros Hb. unfold ceil_div. rewrite Nat.div_mul by lia.
  symmetry. apply (Nat.div_unique _ _ k (b - 1)); lia.
Qed.

Lemma chunk_run_S f size step index n :
  chunk_run f size step index (S n) =
  (index, read_at f (index * size) size) :: chunk_run f size step (index + step) n.
Proof.
  unfold chunk_run. simpl. rewrite Nat.add_0_r. f_equal.
  rewrite <- fmap_S_seq, <- list_fmap_compose.
  apply list_fmap_ext. intros _ i _. simpl.
  by replace (index + step + i * step) with (index + (step + i * step)) by lia.
Qed.

(** The loop, when the stream holds every chunk it asks for: the number of
    chunks is the smaller of what is left of [limit] and the number of
    indices left below [stop]. *)
Lemma chunk_loop_run f size stop limit step fuel index emitted :
  1 ≤ step →
  let n := (limit - emitted) `min` ceil_div (stop - index) step in
  n ≤ fuel →
  (∀ i, i < n → (index + i * step + 1) * size ≤ length f) →
  chunk_loop fuel f size (Some stop) (Some limit) step index emitted =
  chunk_run f size step index n.
Proof.
  intros Hstep. revert index emitted.
  induction fuel as [|fuel IH]; intros index emitted n Hfuel Havail.
  - assert (n = 0) as -> by lia. done.
  - simpl. destruct (Nat.leb_spec stop index) as [Hstop|Hstop].
    { subst n. replace (stop - index) with 0 by lia.
      rewrite ceil_div_0, Nat.min_0_r by done. done. }
    destruct (Nat.leb_spec limit emitted) as [Hlim|Hlim].
    { subst n. replace (limit - emitted) with 0 by lia. done. }
    assert (n = S ((limit - S emitted) `min` ceil_div (stop - (index + step)) step)) as Hn.
    { subst n. rewrite (ceil_div_step (stop - index)) by lia.
      replace (stop - index - step) with (stop - (index + step)) by lia. lia. }
    assert (length (read_at f (index * size) size) = size) as Hfull.
    { apply read_at_full. specialize (Havail 0). lia. }
    rewrite Hfull, Nat.ltb_irrefl, Hn, chunk_run_S. f_equal.
    apply IH; [lia|]. intros i Hi. specialize (Havail (S i)).
    replace (index + step + i * step) with (index + S i * step) by lia.
    apply Havail. lia.
Qed.

(** Over a 10-byte stream with chunk size 1, start 0, stop 5, step 2 and
    limit 10 the iteration visits the indices 0, 2 and 4, all below [stop]. *)
Example FileChunker_step_2 :
  FileChunker (replicate 10 Byte.x00) 1 0 (Some 5) 2 (Some 10) =
    [(0, [Byte.x00]); (2, [Byte.x00]); (4, [Byte.x00])].
Proof. vm_compute. reflexivity. Qed.

(** FileChunker on a stream that holds every chunk asked for. *)
Lemma FileChunker_run f size start stop step limit :
  1 ≤ size → 1 ≤ step →
  let n := limit `min` ceil_div (stop - start) step in
  (∀ i, i < n → (start + i * step + 1) * size ≤ length f) →
  FileChunker f size start (Some stop) step (Some limit) =
    chunk_run f size step start n.
Proof.
  intros Hsize Hstep n Havail. unfold FileChunker.
  pose proof (chunk_loop_run f size stop limit step (S (length f)) start 0 Hstep) as H.
  cbv zeta in H. rewrite Nat.sub_0_r in H. apply H; [|exact Havail].
  fold n. destruct (Nat.eq_dec n 0) as [|Hn]; [lia|].
  assert ((start + (n - 1) * step + 1) * size ≤ length f) as Hlast
    by (apply Havail; lia).
  assert (n - 1 ≤ (n - 1) * step) by nia.
  assert (start + (n - 1) * step + 1 ≤ (start + (n - 1) * step + 1) * size) by nia.
  lia.
Qed.

(** On any stream every chunk FileChunker yields is the [size] bytes of its
    chunk number, so a short final chunk is never yielded. *)
Lemma FileChunker_chunks f size start stop step limit i c :
  (i, c) ∈ FileChunker f size start stop step limit →
  length c = size ∧ c = read_at f (i * size) size.
Proof. intros Hin. apply chunk_loop_elem in Hin as (? & ? & _). done. Qed.

(** Where [step] divides [stop - start], the number of indices visited is
    [(stop - start) / step]. *)
Lemma FileChunker_exact_count f size start k step limit :
  1 ≤ size → 1 ≤ step →
  let stop := start + k * step in
  (∀ i, i < limit `min` k → (start + i * step + 1) * size ≤ length f) →
  length (FileChunker f size start (Some stop) step (Some limit)) =
    limit `min` ((stop - start) / step).
Proof.
  intros Hsize Hstep stop Havail.
  assert (ceil_div (stop - start) step = (stop - start) / step) as Hc.
  { subst stop. replace (start + k * step - start) with (k * step) by lia.
    by apply ceil_div_exact. }
  assert ((stop - start) / step = k) as Hk.
  { subst stop. replace (start + k * step - start) with (k * step) by lia.
    apply Nat.div_mul. lia. }
  pose proof (FileChunker_run f size start stop step limit Hsize Hstep) as H.
  simpl in H. rewrite Hc, Hk in H. rewrite (H Havail), Hk.
  unfold chunk_run. by rewrite length_fmap, length_seq.
Qed.

(* ------------------------------------------------------------------ *)
(** ** packetreader                                                     *)
(* ------------------------------------------------------------------ *)

(** The histograms pass the stream through, or fail on the missing StatsList. *)
Lemma histograms_spec progress mag_hist row_hist err_hist has_stats packets :
  histograms progress mag_hist row_hist err_hist has_stats packets =
  if progress && (mag_hist || row_hist || err_hist) && negb has_stats
  then Raised AttributeError else Returned packets.
Proof.
  unfold histograms, postfix_append, MagHistogram, RowHistogram, ErrorHistogram.
  by destruct progress, mag_hist, row_hist, err_hist, has_stats.
Qed.

Lemma histograms_returned progress mag_hist row_hist err_hist has_stats packets out :
  histograms progress mag_hist row_hist err_hist has_stats packets = Returned out →
  out = packets.
Proof.
  rewrite histograms_spec. destruct (_ && _); [done|]. by intros [= <-].
Qed.

Lemma vbi_lines_returned chunks extra_roll progress rejects has_stats lines :
  vbi_lines chunks extra_roll progress rejects has_stats = Returned lines →
  lines = (λ c, mkLine c.2 c.1 extra_roll) <$> chunks.
Proof.
  unfold vbi_lines, postfix_append, Rejects.
  destruct (progress && rejects), has_stats; try done; by intros [= <-].
Qed.

(** Slicing the [(number, chunk)] tuple to its first 42 items returns the
    tuple, since it has two. *)
Lemma getslice_chunk_tuple c :
  py_getslice_to 42 (chunk_tuple c) = Returned (chunk_tuple c).
Proof. done. Qed.

(** With [wst], the chunks handed on are those of [chunker(43)], untouched. *)
Lemma packetreader_chunks_wst chunker :
  packetreader_chunks chunker true = Returned (chunk_tuple <$> chunker 43).
Proof.
  unfold packetreader_chunks. induction (chunker 43) as [|c l IH]; [done|].
  simpl in *. by rewrite IH.
Qed.

Lemma packetreader_construct_tuples (chunks : list (nat * list byte)) :
  packetreader_construct (chunk_tuple <$> chunks) =
  Returned ((λ c, mkPacket c.2 (Z.of_nat c.1)) <$> chunks).
Proof.
  unfold packetreader_construct. induction chunks as [|c l IH]; [done|].
  rewrite fmap_cons. cbn [mapM]. by rewrite IH.
Qed.

(** C1, the code at the input of the specification's scenario: 129 bytes
    read with [--wst].  Three chunks of 43 bytes are read, and each reaches
    the Packet constructor whole, 43rd byte included: [c[:42]] slices the
    [(number, chunk)] tuple, not the chunk. *)
Theorem wst_129_bytes_keeps_43 :
  let input := byte_of_nat <$> seq 0 129 in
  let chunker := λ size, FileChunker input size 0 None 1 None in
  packetreader_chunks chunker true =
    Returned [ PyTuple [PyInt 0; PyBytes (byte_of_nat <$> seq 0 43)];
               PyTuple [PyInt 1; PyBytes (byte_of_nat <$> seq 43 43)];
               PyTuple [PyInt 2; PyBytes (byte_of_nat <$> seq 86 43)] ]
  ∧ packetreader_construct
      [ PyTuple [PyInt 0; PyBytes (byte_of_nat <$> seq 0 43)];
        PyTuple [PyInt 1; PyBytes (byte_of_nat <$> seq 43 43)];
        PyTuple [PyInt 2; PyBytes (byte_of_nat <$> seq 86 43)] ] =
    Returned [ mkPacket (byte_of_nat <$> seq 0 43) 0;
               mkPacket (byte_of_nat <$> seq 43 43) 1;
               mkPacket (byte_of_nat <$> seq 86 43) 2 ]
  ∧ length (byte_of_nat <$> seq 0 43) = 43
  ∧ (byte_of_nat <$> seq 0 43) !! 42 = Some (byte_of_nat 42).
Proof. vm_compute. done. Qed.

(** The same on every input: with [--wst] each packet carries the full
    43-byte chunk. *)
Lemma wst_packets_carry_43 `{Mrag} f start stop step limit mags rows progress
    mag_hist row_hist err_hist packets :
  packetreader (λ size, FileChunker f size start stop step limit) true
    mags rows progress mag_hist row_hist err_hist = Returned packets →
  ∀ p, p ∈ packets → length (_array p) = 43.
Proof.
  unfold packetreader. rewrite packetreader_chunks_wst. simpl.
  assert (∀ l, (if default true progress then tqdm l else l) = l) as ->
    by (intros; unfold tqdm; by destruct (default true progress)).
  rewrite packetreader_construct_tuples. simpl.
  intros ->%histograms_returned p [_ Hin]%list_elem_of_filter.
  apply list_elem_of_fmap in Hin as ([i c] & -> & Hin). simpl.
  by apply chunk_loop_elem in Hin as (? & _).
Qed.

(** Without [--wst] the chunks are those of [chunker(42)]. *)
Lemma packetreader_t42 `{Mrag} chunker mags rows progress mag_hist row_hist err_hist
    packets :
  packetreader chunker false mags rows progress mag_hist row_hist err_hist
    = Returned packets →
  packets = filter (λ p, mrag_selected mags rows p)
              ((λ c, mkPacket c.2 (Z.of_nat c.1)) <$> chunker 42).
Proof.
  unfold packetreader, packetreader_chunks. simpl.
  assert (∀ l, (if default true progress then tqdm l else l) = l) as ->
    by (intros; unfold tqdm; by destruct (default true progress)).
  rewrite packetreader_construct_tuples. simpl.
  by intros ->%histograms_returned.
Qed.

Lemma Line_frame_selected `{Mrag} `{LineDsp} recovered number mags rows p :
  Line_frame recovered number mags rows = Some p →
  contains mags (mrag_magazine p) = true ∧ contains rows (mrag_row p) = true.
Proof.
  unfold Line_frame. destruct (framing_ok _); [|done].
  destruct (contains mags _ && contains rows _) eqn:Hsel; [|done].
  intros [= <-]. by apply andb_true_iff in Hsel.
Qed.

(** C2: every packet the packet-reading pipelines emit has its magazine in
    [mags] and its row in [rows].  In packetreader the stream handed on is
    the constructed packets filtered by that test, so the others are removed;
    in [slice] and [deconvolve] the line returns None for them and the
    command drops the None. *)
Theorem emitted_packets_selected {M : Mrag} {D : LineDsp}
    (mags rows : container) (p : Packet) :
  (∀ chunker wst progress mag_hist row_hist err_hist packets,
     packetreader chunker wst mags rows progress mag_hist row_hist err_hist
       = Returned packets →
     (∃ chunks constructed,
        packetreader_chunks chunker wst = Returned chunks ∧
        packetreader_construct chunks = Returned constructed ∧
        packets = filter (λ q, mrag_selected mags rows q) constructed) ∧
     (p ∈ packets →
      contains mags (mrag_magazine p) = true ∧ contains rows (mrag_row p) = true))
  ∧ (∀ chunker config extra_roll progress mag_hist row_hist err_hist rejects packets,
       slice chunker mags rows config extra_roll progress mag_hist row_hist
         err_hist rejects = Returned packets →
       p ∈ packets →
       contains mags (mrag_magazine p) = true ∧ contains rows (mrag_row p) = true)
  ∧ (∀ chunker config force_cpu extra_roll progress mag_hist row_hist err_hist
       rejects packets,
       deconvolve chunker mags rows config force_cpu extra_roll progress
         mag_hist row_hist err_hist rejects = Returned packets →
       p ∈ packets →
       contains mags (mrag_magazine p) = true ∧ contains rows (mrag_row p) = true).
Proof.
  split; [|split].
  - intros chunker wst progress mag_hist row_hist err_hist packets.
    unfold packetreader.
    destruct (packetreader_chunks chunker wst) as [chunks|e]; [simpl|done].
    assert ((if default true progress then tqdm chunks else chunks) = chunks) as ->
      by (unfold tqdm; by destruct (default true progress)).
    destruct (packetreader_construct chunks) as [constructed|e] eqn:Hc; [simpl|done].
    intros ->%histograms_returned. split; [by exists chunks, constructed|].
    intros [Hsel _]%list_elem_of_filter.
    unfold mrag_selected in Hsel. apply Is_true_true in Hsel.
    by apply andb_true_iff in Hsel.
  - intros chunker config extra_roll progress mag_hist row_hist err_hist rejects
      packets.
    unfold slice. destruct (vbi_lines _ _ _ _ _) as [lines|e]; [simpl|done].
    intros ->%histograms_returned.
    intros (o & Hin & Ho)%list_elem_of_omap. simpl in Ho. subst o.
    apply list_elem_of_fmap in Hin as (l & Hl & _).
    symmetry in Hl. by apply Line_frame_selected in Hl.
  - intros chunker config force_cpu extra_roll progress mag_hist row_hist err_hist
      rejects packets.
    unfold deconvolve. destruct (vbi_lines _ _ _ _ _) as [lines|e]; [simpl|done].
    intros ->%histograms_returned.
    intros (o & Hin & Ho)%list_elem_of_omap. simpl in Ho. subst o.
    apply list_elem_of_fmap in Hin as (l & Hl & _).
    symmetry in Hl. by apply Line_frame_selected in Hl.
Qed.

(** A t42 stream of two packets, magazine 4
    row 1 and magazine 1 row 0, read with [-m 4]: the second is removed. *)
Lemma emitted_packets_selected_witness :
  let input := example_payload Byte.xa1 Byte.x15 Byte.x20 ++
               example_payload Byte.x02 Byte.x15 Byte.x20 in
  let chunker := λ size, FileChunker input size 0 None 1 None in
  let p := mkPacket (example_payload Byte.xa1 Byte.x15 Byte.x20) 0 in
  @packetreader example_mrag chunker false (Tuple [4%Z]) (Range 32) None
    false false false = Returned [p] ∧
  contains (Tuple [4%Z]) (@mrag_magazine example_mrag p) = true ∧
  contains (Range 32) (@mrag_row example_mrag p) = true.
Proof.
  intros input chunker p.
  assert (@packetreader example_mrag chunker false (Tuple [4%Z]) (Range 32) None
            false false false = Returned [p]) as Hrun by (vm_compute; reflexivity).
  split; [exact Hrun|].
  apply (proj1 (@emitted_packets_selected example_mrag example_dsp
                  (Tuple [4%Z]) (Range 32) p)
           chunker false None false false false [p] Hrun).
  apply list_elem_of_here.
Defined.

(* ------------------------------------------------------------------ *)
(** ** celp_print                                                       *)
(* ------------------------------------------------------------------ *)

Lemma py_getitem_lookup {A} (l : list A) (i : nat) (a : A) :
  l !! i = Some a → py_getitem l (Z.of_nat i) = Returned a.
Proof.
  intros Hl. pose proof (lookup_lt_Some _ _ _ Hl) as Hlt.
  unfold py_getitem.
  destruct (Z.ltb_spec (Z.of_nat i) 0) as [Hneg|_]; [lia|].
  destruct (Z.leb_spec 0 (Z.of_nat i)) as [_|Hneg]; [|lia].
  destruct (Z.ltb_spec (Z.of_nat i) (Z.of_nat (length l))) as [_|Hge]; [|lia].
  simpl. by rewrite Nat2Z.id, Hl.
Qed.

Lemma py_slice_length {A} (lo hi : nat) (l : list A) :
  hi ≤ length l → length (py_slice lo hi l) = hi - lo.
Proof. intros H. unfold py_slice. rewrite length_take, length_drop. lia. Qed.

Lemma py_slice_lookup {A} (lo hi i : nat) (l : list A) :
  i < hi - lo → py_slice lo hi l !! i = l !! (lo + i).
Proof.
  intros H. unfold py_slice. by rewrite lookup_take_lt, lookup_drop.
Qed.

(* ------------------------------------------------------------------ *)
(** ** The bit layout of a CELP frame                                   *)
(* ------------------------------------------------------------------ *)

Lemma mapM_returned {A B} (f : A → outcome B) (h : A → B) (l : list A) :
  (∀ x, x ∈ l → f x = Returned (h x)) → mapM f l = Returned (h <$> l).
Proof.
  induction l as [|a l IH]; intros Hf; [done|].
  cbn [mapM]. rewrite (Hf a) by apply list_elem_of_here. simpl.
  rewrite IH; [done|]. intros x Hx. apply Hf. by apply list_elem_of_further.
Qed.

Lemma bits_value_testbit bits (i : nat) :
  Z.testbit (bits_value bits) (Z.of_nat i) = default false (bits !! i).
Proof.
  revert i. induction bits as [|b r IH]; intros i; simpl.
  - apply Z.testbit_0_l.
  - destruct i as [|i].
    + simpl. apply Z.add_b2z_double_bit0.
    + rewrite Nat2Z.inj_succ, (Z.add_comm (Z.b2z b)).
      rewrite Z.testbit_succ_r by lia. apply IH.
Qed.

Lemma bits_value_bound bits :
  (0 ≤ bits_value bits < 2 ^ Z.of_nat (length bits))%Z.
Proof.
  induction bits as [|b r IH]; simpl length; [simpl; lia|].
  rewrite Nat2Z.inj_succ, Z.pow_succ_r by lia. simpl bits_value.
  destruct b; simpl Z.b2z; lia.
Qed.

Lemma byte_bits_little_length b : length (byte_bits_little b) = 8.
Proof. done. Qed.

Lemma unpackbits_little_length a : length (unpackbits_little a) = 8 * length a.
Proof.
  unfold unpackbits_little. induction a as [|b a IH]; [done|].
  rewrite bind_cons, length_app, IH, byte_bits_little_length. simpl. lia.
Qed.

(** Bit [k] of the unpacked array is bit [k mod 8] of byte [k / 8]. *)
Lemma unpackbits_little_lookup a k :
  unpackbits_little a !! k =
  (λ b, Z.testbit (byte_val b) (Z.of_nat (k mod 8))) <$> a !! (k / 8).
Proof.
  unfold unpackbits_little. revert k. induction a as [|b a IH]; intros k.
  - done.
  - rewrite bind_cons. destruct (Nat.lt_ge_cases k 8) as [Hk|Hk].
    + rewrite lookup_app_l by (rewrite byte_bits_little_length; lia).
      rewrite Nat.div_small, Nat.mod_small by lia. simpl.
      unfold byte_bits_little. rewrite list_lookup_fmap, lookup_seq_lt by lia.
      done.
    + rewrite lookup_app_r by (rewrite byte_bits_little_length; lia).
      rewrite byte_bits_little_length, IH.
      assert (k / 8 = S ((k - 8) / 8)) as ->.
      { replace k with ((k - 8) + 1 * 8) at 1 by lia.
        rewrite Nat.div_add by lia. lia. }
      assert (k mod 8 = (k - 8) mod 8) as ->.
      { replace k with ((k - 8) + 1 * 8) at 1 by lia.
        by rewrite Nat.Div0.mod_add. }
      done.
Qed.

Lemma packbits_little_short bits :
  0 < length bits ≤ 8 → packbits_little bits = [bits_value bits].
Proof.
  intros Hlen. unfold packbits_little.
  destruct bits as [|b r]; [simpl in Hlen; lia|].
  cbn [length packbits_go].
  rewrite take_ge, drop_ge by (simpl in *; lia).
  by destruct (length r).
Qed.

(** The boundaries of field [n]: it starts at [g[n]], is [widths[n + 1]]
    bits wide, and ends at [g[n + 1]], before the padding. *)
Lemma g_field n lo w :
  n < 30 → g !! n = Some lo → widths !! (n + 1) = Some w →
  g !! (n + 1) = Some (lo + w) ∧ 3 ≤ w ≤ 8 ∧ lo + w ≤ 149.
Proof.
  intros Hn.
  do 30 (destruct n as [|n];
         [vm_compute; intros [= <-] [= <-]; repeat split; lia|]).
  lia.
Qed.

Lemma decode_field_value raw_frame n lo w :
  n < 30 → g !! n = Some lo → widths !! (n + 1) = Some w →
  length raw_frame = 152 →
  decode_field raw_frame n = Returned (bits_value (py_slice lo (lo + w) raw_frame)).
Proof.
  intros Hn Hlo Hw Hlen.
  destruct (g_field n lo w Hn Hlo Hw) as (Hhi & Hwb & Hend).
  unfold decode_field.
  rewrite (py_getitem_lookup g n lo Hlo). simpl.
  rewrite (py_getitem_lookup g (n + 1) (lo + w) Hhi). simpl.
  rewrite packbits_little_short; [done|].
  rewrite py_slice_length by lia. lia.
Qed.

Lemma decode_frame_fields raw_frame :
  length raw_frame = 152 →
  decode_frame raw_frame =
  Returned ((λ n, bits_value (py_slice (default 0 (g !! n))
                                       (default 0 (g !! n) + default 0 (widths !! (n + 1)))
                                       raw_frame)) <$> seq 0 30).
Proof.
  intros Hlen. unfold decode_frame.
  change (length g - 2) with 30.
  apply mapM_returned. intros n [i [-> Hn]%lookup_seq]%list_elem_of_lookup_1.
  simpl.
  destruct (g !! _) as [lo|] eqn:Hlo; [|apply lookup_ge_None in Hlo; simpl in Hlo; lia].
  destruct (widths !! _) as [w|] eqn:Hw; [|apply lookup_ge_None in Hw; simpl in Hw; lia].
  simpl. by apply decode_field_value.
Qed.

(** C6: the layout used to unpack a CELP frame.  The widths are, in order,
    3,4,4,4,4,4,4,4,3,3 (ten LSF parameters, 37 bits), four 5-bit pitch gains,
    four 5-bit vector gains, four 7-bit pitch indices, four 8-bit vector
    indices, four 3-bit error-correction fields and a 3-bit padding field, 152
    bits in all; the 19 bytes of a frame unpack to 152 bits, least significant
    bit of each byte first, and bit [i] of decoded field [n] is bit
    [g[n] + i] of the frame: little-endian within each field. *)
Theorem celp_frame_layout (frame : list byte) :
  length frame = 19 →
  widths = 0 :: [3; 4; 4; 4; 4; 4; 4; 4; 3; 3] ++ replicate 4 5 ++ replicate 4 5 ++
           replicate 4 7 ++ replicate 4 8 ++ replicate 4 3 ++ [3]
  ∧ sum_list [3; 4; 4; 4; 4; 4; 4; 4; 3; 3] = 37
  ∧ sum_list widths = 152
  ∧ last g = Some 152
  ∧ let bits := unpackbits_little frame in
    length bits = 152
    ∧ (∀ k, bits !! k =
              (λ b, Z.testbit (byte_val b) (Z.of_nat (k mod 8))) <$> frame !! (k / 8))
    ∧ ∃ fields,
        decode_frame bits = Returned fields ∧ length fields = 30 ∧
        ∀ n lo w, n < 30 → g !! n = Some lo → widths !! (n + 1) = Some w →
          ∃ v, fields !! n = Some v ∧ (0 ≤ v < 2 ^ Z.of_nat w)%Z ∧
               ∀ i, Z.testbit v (Z.of_nat i) =
                    if decide (i < w) then default false (bits !! (lo + i)) else false.
Proof.
  intros Hframe. do 4 (split; [done|]). intros bits.
  assert (length bits = 152) as Hbits.
  { subst bits. rewrite unpackbits_little_length. lia. }
  split; [done|]. split; [intros k; apply unpackbits_little_lookup|].
  eexists. split; [by apply decode_frame_fields|].
  split; [by rewrite length_fmap, length_seq|].
  intros n lo w Hn Hlo Hw.
  destruct (g_field n lo w Hn Hlo Hw) as (Hhi & Hwb & Hend).
  eexists. split.
  { rewrite list_lookup_fmap, lookup_seq_lt by done. simpl.
    by rewrite Hlo, Hw. }
  simpl. split.
  - pose proof (bits_value_bound (py_slice lo (lo + w) bits)) as Hb.
    rewrite py_slice_length in Hb by lia.
    by replace (lo + w - lo) with w in Hb by lia.
  - intros i. rewrite bits_value_testbit. case_decide as Hi.
    + rewrite py_slice_lookup by lia. done.
    + unfold py_slice. rewrite lookup_take_ge by lia. done.
Qed.

(** The frame of 19 bytes 0xff. *)
Lemma celp_frame_layout_witness :
  length (replicate 19 Byte.xff) = 19 ∧
  length (unpackbits_little (replicate 19 Byte.xff)) = 152.
Proof.
  split; [reflexivity|].
  exact (proj1 (proj2 (proj2 (proj2 (proj2
           (celp_frame_layout (replicate 19 Byte.xff) eq_refl)))))).
Defined.

(* ------------------------------------------------------------------ *)
(** ** record                                                           *)
(* ------------------------------------------------------------------ *)

Lemma byte_val_bound b : (0 ≤ byte_val b < 256)%Z.
Proof. unfold byte_val. pose proof (Byte.to_N_bounded b). lia. Qed.

Lemma py_slice_last_app {A} (front back : list A) :
  py_slice_last (length back) (front ++ back) = back.
Proof.
  unfold py_slice_last. rewrite length_app.
  replace (length front + length back - length back) with (length front) by lia.
  apply drop_app_length.
Qed.

Lemma record_frame_ok st chunk :
  4 ≤ length chunk →
  ∃ seq, struct_unpack_le_u32 (py_slice_last 4 chunk) = Returned seq ∧
         (record_frame st chunk).2 = None ∧
         prev_seq (record_frame st chunk).1 = Some seq ∧
         dropped (record_frame st chunk).1 =
           dropped st + (if frame_dropped (prev_seq st) seq then 1 else 0).
Proof.
  intros Hlen.
  assert (∃ b0 b1 b2 b3, py_slice_last 4 chunk = [b0; b1; b2; b3])
    as (b0 & b1 & b2 & b3 & Hl).
  { unfold py_slice_last.
    assert (length (drop (length chunk - 4) chunk) = 4) as H4
      by (rewrite length_drop; lia).
    destruct (drop _ chunk) as [|b0 [|b1 [|b2 [|b3 [|? ?]]]]]; try done.
    by exists b0, b1, b2, b3. }
  eexists. unfold record_frame. rewrite Hl. simpl.
  split; [done|]. destruct (frame_dropped _ _); simpl; repeat split; lia.
Qed.

(** The loop never ends on anything but the end of the frames or a
    KeyboardInterrupt, when every frame holds at least four bytes. *)
Lemma record_loop_ends st (chunks : list (nat * list byte)) interrupt :
  Forall (λ c, 4 ≤ length c.2) chunks →
  (record_loop st (interrupted interrupt chunks)).2 =
    match interrupt with None => None | Some _ => Some KeyboardInterrupt end.
Proof.
  intros Hall.
  assert (∀ (l : list (nat * list byte)) tail st,
            Forall (λ c, 4 ≤ length c.2) l →
            record_loop st ((Item <$> l) ++ tail) =
            record_loop (record_loop st (Item <$> l)).1 tail) as Happ.
  { induction l as [|[n c] l IH]; intros tail st0 Hl; [done|].
    inversion Hl as [|? ? Hc Hl']; subst. simpl in Hc.
    destruct (record_frame_ok st0 c Hc) as (seq & _ & Hnone & _).
    cbn [fmap list_fmap app record_loop].
    destruct (record_frame st0 c) as [st1 e]. simpl in Hnone. subst e.
    by apply IH. }
  destruct interrupt as [k|]; unfold interrupted.
  - rewrite Happ by (by apply Forall_take). done.
  - rewrite <- (app_nil_r (Item <$> chunks)), Happ by done. done.
Qed.

(* ------------------------------------------------------------------ *)
(** ** Optional features                                                *)
(* ------------------------------------------------------------------ *)

(** C7: when the module of an optional feature is missing (PyEnchant for
    spellcheck, a module of PyOpenGL for vbiview) the command ends in a
    usage error whose message names the feature, not in the import error;
    a missing module of another name is re-raised unchanged. *)
Theorem missing_feature_is_usage_error (name msg : string)
    (packets : list Packet) (language : string)
    (chunker : nat → list (nat * list byte)) (config : Config) :
  spellcheck (Raised (ModuleNotFoundError "enchant" msg)) packets language =
    Raised (UsageError
      (msg +:+ ". PyEnchant is not installed. Spelling checker is not available."))
  ∧ (name ≠ "enchant" →
     spellcheck (Raised (ModuleNotFoundError name msg)) packets language =
       Raised (ModuleNotFoundError name msg))
  ∧ (String.prefix "OpenGL" name = true →
     vbiview (Raised (ModuleNotFoundError name msg)) chunker config =
       Raised (UsageError
         (msg +:+ ". PyOpenGL is not installed. VBI viewer is not available.")))
  ∧ (String.prefix "OpenGL" name = false →
     vbiview (Raised (ModuleNotFoundError name msg)) chunker config =
       Raised (ModuleNotFoundError name msg)).
Proof.
  split; [done|]. split; [|split].
  - intros Hne. unfold spellcheck.
    destruct (String.eqb_spec name "enchant"); done.
  - intros Hp. unfold vbiview. by rewrite Hp.
  - intros Hp. unfold vbiview. by rewrite Hp.
Qed.

(** The two commands when [OpenGL.GL] cannot be found. *)
Lemma missing_feature_is_usage_error_witness :
  vbiview (Raised (ModuleNotFoundError "OpenGL.GL" "No module named 'OpenGL'"))
    (λ _, []) (mkConfig 2048) =
  Raised (UsageError
    "No module named 'OpenGL'. PyOpenGL is not installed. VBI viewer is not available.")
  ∧ spellcheck (Raised (ModuleNotFoundError "OpenGL.GL" "No module named 'OpenGL'"))
      [] "en_GB" =
    Raised (ModuleNotFoundError "OpenGL.GL" "No module named 'OpenGL'").
Proof.
  pose proof (missing_feature_is_usage_error "OpenGL.GL" "No module named 'OpenGL'"
                [] "en_GB" (λ _, []) (mkConfig 2048)) as (_ & Hs & Hv & _).
  split; [exact (Hv eq_refl) | apply Hs; discriminate].
Defined.

(** Over a whole capture the counter ends at the number of frames whose
    sequence number is not the previous one plus one. *)
Lemma record_loop_dropped st (chunks : list (nat * list byte)) :
  Forall (λ c, 4 ≤ length c.2) chunks →
  dropped (record_loop st (Item <$> chunks)).1 =
    dropped st + count_drops (prev_seq st) ((λ c, frame_seq c.2) <$> chunks).
Proof.
  revert st. induction chunks as [|[n c] l IH]; intros st Hall; [simpl; lia|].
  inversion Hall as [|? ? Hc Hl]; subst. simpl in Hc.
  destruct (record_frame_ok st c Hc) as (seq & Hseq & Hnone & Hprev & Hdrop).
  assert (frame_seq c = seq) as Hfs by (unfold frame_seq; by rewrite Hseq).
  cbn [fmap list_fmap record_loop count_drops fst snd]. rewrite Hfs.
  destruct (record_frame st c) as [st1 e]. cbn [fst snd] in *. subst e.
  rewrite IH by done. rewrite Hprev, Hdrop. lia.
Qed.

(** A capture of three 32-byte frames numbered 5, 6 and 8: one drop. *)
Example record_three_frames :
  let frame := λ n, replicate 28 Byte.x00 ++ [byte_of_nat n; Byte.x00; Byte.x00; Byte.x00] in
  let r := record [] (frame 5 ++ frame 6 ++ frame 8) (mkConfig 1) None in
  dropped r.1 = 1 ∧ prev_seq r.1 = Some 8%Z ∧
  rec_messages r.1 = "Frame drop? 1" +:+ newline ∧
  r.2 = Returned tt.
Proof. vm_compute. done. Qed.

(* ------------------------------------------------------------------ *)
(** ** Exit status                                                      *)
(* ------------------------------------------------------------------ *)

Lemma drain_items {A} (items : list A) : drain (Item <$> items) = Returned tt.
Proof. induction items as [|a l IH]; [done|]. exact IH. Qed.

Lemma drain_interrupted {A} (items : list A) k :
  drain (interrupted (Some k) items) = Raised KeyboardInterrupt.
Proof.
  unfold interrupted. induction (take k items) as [|a l IH]; [done|]. exact IH.
Qed.

Lemma foldl_to_file {A} (packets : list A) output : foldl to_file packets output = packets.
Proof. induction output as [|o l IH]; [done|]. exact IH. Qed.

(** The commands that drain a packet stream: a stream that ends is a normal
    return, an interrupt leaves the wrapper as KeyboardInterrupt. *)
Lemma packetwriter_ends {A} output progress (f : progress_kw → outcome (list A))
    interrupt :
  (∀ kw, ∃ packets, f kw = Returned packets) →
  packetwriter output progress f interrupt =
    match interrupt with
    | None => Returned tt
    | Some _ => Raised KeyboardInterrupt
    end.
Proof.
  intros Hf. unfold packetwriter.
  match goal with |- context [f ?kw] => destruct (Hf kw) as [packets ->] end.
  simpl. rewrite foldl_to_file.
  destruct interrupt; [apply drain_interrupted | apply drain_items].
Qed.

(** C8 as stated: the CLI exits with code 0 on keyboard interrupt.  It does
    not: in [slice], on an input that is not a terminal, an interrupt before
    the first packet leaves the command as KeyboardInterrupt and the exit
    status is 1. *)
Lemma interrupted_slice_exits_nonzero :
  let run := @slice_command example_mrag example_dsp [("auto"%string, false)]
               (mkInput false false []) 0 None 1 None (Range 9) (Range 32)
               (mkConfig 2048) (-2) true true false false true (Some 0) in
  run = Raised KeyboardInterrupt ∧ exit_status run = 1%Z ∧ exit_status run ≠ 0%Z.
Proof. vm_compute. repeat split; discriminate. Qed.

(** [slice] builds its stream unless the error histogram is asked for alone,
    when there is no StatsList to attach it to. *)
Lemma slice_returns `{Mrag} `{LineDsp} chunker mags rows config extra_roll
    progress mag_hist row_hist err_hist rejects :
  progress && err_hist && negb (mag_hist || row_hist || rejects) = false →
  ∃ packets, slice chunker mags rows config extra_roll progress mag_hist row_hist
               err_hist rejects = Returned packets.
Proof.
  intros Hflags. unfold slice, vbi_lines, postfix_append, Rejects.
  destruct progress, mag_hist, row_hist, err_hist, rejects; try done;
    simpl; rewrite histograms_spec; simpl; by eexists.
Qed.

(** C8, amended: a command that drains a packet stream ([slice] here, read
    with a step and a line length of at least 1, its statistics options being
    such that the stream is built) exits 0 when the stream ends, but has no
    handler for KeyboardInterrupt: interrupted after any number of packets it
    ends in that exception, exit status 1.  The handler is in the function
    record alone, which returns normally when its loop is interrupted.  And
    every command behind chunkreader, given a terminal as input, ends in the
    usage error, exit status 2, whatever the wrapped function and the
    content, the function not being called. *)
Theorem cli_exit_status {M : Mrag} {D : LineDsp} (sinks : list (string * bool))
    (content : list byte) (fifo : bool) (start : nat) (stop : option nat)
    (step : nat) (limit : option nat) (mags rows : container) (config : Config)
    (extra_roll : Z) (progress mag_hist row_hist err_hist rejects : bool) :
  1 ≤ step → 1 ≤ line_length config →
  progress && err_hist && negb (mag_hist || row_hist || rejects) = false →
  let run := λ tty, slice_command sinks (mkInput tty fifo content) start stop step
                      limit mags rows config extra_roll progress mag_hist row_hist
                      err_hist rejects in
  (run false None = Returned tt ∧ exit_status (run false None) = 0%Z)
  ∧ (∀ k, run false (Some k) = Raised KeyboardInterrupt ∧
          exit_status (run false (Some k)) = 1%Z)
  ∧ (∀ interrupt,
       run true interrupt =
         Raised (UsageError "No input file and stdin is a tty - exiting.") ∧
       exit_status (run true interrupt) = 2%Z)
  ∧ (∀ R (f : (nat → list (nat * list byte)) → progress_kw → outcome R)
       fifo' content' start' stop' step' limit' progress',
       chunkreader f (mkInput true fifo' content') start' stop' step' limit' progress' =
         Raised (UsageError "No input file and stdin is a tty - exiting.") ∧
       exit_status (chunkreader f (mkInput true fifo' content') start' stop' step'
                      limit' progress') = 2%Z)
  ∧ (∀ output device interrupt,
       (record output device config interrupt).2 = Returned tt).
Proof.
  intros _ Hlen Hflags run.
  assert (∀ i, run false i = match i with
                             | None => Returned tt
                             | Some _ => Raised KeyboardInterrupt
                             end) as Hrun.
  { intros i. subst run. unfold slice_command, packetwriter, chunkreader. simpl.
    destruct (slice_returns
                (λ size, FileChunker content size start stop step limit)
                mags rows config extra_roll progress mag_hist row_hist err_hist
                rejects Hflags) as [packets ->].
    simpl. rewrite foldl_to_file.
    destruct i; [apply drain_interrupted | apply drain_items]. }
  split; [by rewrite (Hrun None)|].
  split; [intros k; by rewrite (Hrun (Some k))|].
  split; [done|]. split; [done|].
  intros output device interrupt. unfold record, tqdm.
  pose proof (record_loop_ends (mkRecord output "" None 0)
                (FileChunker device (line_length config * 32) 0 None 1 None)
                interrupt) as Hends.
  destruct (record_loop _ _) as [st e]. simpl in Hends.
  rewrite Hends.
  - by destruct interrupt.
  - apply Forall_forall. intros [n c] Hin. simpl.
    apply chunk_loop_elem in Hin as (? & _). lia.
Qed.

(** [slice] over two lines of 45 samples, the second of them a packet of
    magazine 1, to the end of the input and interrupted after the first
    packet. *)
Lemma cli_exit_status_witness :
  let line := Byte.x55 :: Byte.x55 :: Byte.x27 ::
              example_payload Byte.x02 Byte.x15 Byte.x20 in
  let run := @slice_command example_mrag example_dsp [("auto"%string, false)]
               (mkInput false false (replicate 45 Byte.x00 ++ line)) 0 None 1 None
               (Range 9) (Range 32) (mkConfig 45) (-2) true true false false true in
  exit_status (run None) = 0%Z ∧ exit_status (run (Some 1)) = 1%Z.
Proof.
  intros line run.
  destruct (@cli_exit_status example_mrag example_dsp [("auto"%string, false)]
              (replicate 45 Byte.x00 ++ line) false 0 None 1 None (Range 9) (Range 32)
              (mkConfig 45) (-2) true true false false true)
    as ((_ & Hend) & Hint & _); [lia | simpl; lia | reflexivity |].
  split; [exact Hend | exact (proj2 (Hint 1))].
Defined.

(* ------------------------------------------------------------------ *)
(** ** filter and squash                                                *)
(* ------------------------------------------------------------------ *)




(** An option that does not read as hexadecimal ends filter in a
    ValueError. *)
Lemma filter_bad_page {P : Pipeline} packets subpages flag :
  teletext_filter packets (Some ["xyz"%string]) subpages flag = Raised ValueError.
Proof. done. Qed.

Lemma land_upper_bound (x m : Z) : (0 ≤ m → Z.land x m ≤ m)%Z.
Proof.
  intros Hm.
  assert (Z.ldiff (Z.land x m) m = 0%Z) as Hsub.
  { apply Z.bits_inj'. intros n Hn.
    rewrite Z.ldiff_spec, Z.land_spec, Z.bits_0.
    by destruct (Z.testbit x n), (Z.testbit m n). }
  pose proof (Z.sub_nocarry_ldiff m (Z.land x m) Hsub) as Hd.
  assert (0 ≤ Z.ldiff m (Z.land x m))%Z by (apply Z.ldiff_nonneg; lia).
  lia.
Qed.






(* ================================================================== *)
(** * Further properties                                                *)
(* ================================================================== *)

(* ------------------------------------------------------------------ *)
(** ** record over a whole capture                                      *)
(* ------------------------------------------------------------------ *)

(** FileChunker read from the start, every chunk, without bounds: the whole
    chunks of the stream, in order. *)
Lemma chunk_loop_unbounded f size fuel index emitted :
  1 ≤ size → length f / size - index < fuel →
  chunk_loop fuel f size None None 1 index emitted =
  chunk_run f size 1 index (length f / size - index).
Proof.
  intros Hsize. revert index emitted.
  induction fuel as [|fuel IH]; intros index emitted Hfuel; [lia|].
  cbn [chunk_loop reached].
  pose proof (Nat.Div0.mul_div_le (length f) size) as Hlow.
  destruct (Nat.lt_ge_cases index (length f / size)) as [Hin|Hout].
  - assert ((index + 1) * size ≤ length f) as Hfull by nia.
    rewrite read_at_full by lia. rewrite Nat.ltb_irrefl.
    replace (length f / size - index) with (S (length f / size - (index + 1))) by lia.
    rewrite chunk_run_S. f_equal. apply IH. lia.
  - replace (length f / size - index) with 0 by lia.
    assert (length f < (index + 1) * size) as Hshort.
    { assert (length f / size < index + 1) as Hq by lia.
      pose proof (Nat.div_mod_eq (length f) size) as Hdm.
      pose proof (Nat.mod_upper_bound (length f) size ltac:(lia)) as Hm.
      nia. }
    assert (length (read_at f (index * size) size) < size) as Hlen.
    { unfold read_at. rewrite length_take, length_drop. lia. }
    apply Nat.ltb_lt in Hlen. by rewrite Hlen.
Qed.

Lemma FileChunker_unbounded f size :
  1 ≤ size →
  FileChunker f size 0 None 1 None = chunk_run f size 1 0 (length f / size).
Proof.
  intros Hsize. unfold FileChunker.
  rewrite (chunk_loop_unbounded f size (S (length f)) 0 0 Hsize).
  - by rewrite Nat.sub_0_r.
  - rewrite Nat.sub_0_r.
    pose proof (Nat.Div0.mul_div_le (length f) size). nia.
Qed.

(** The chunks of a run, put end to end, are the bytes they were read from. *)
Lemma chunk_run_concat f size index n :
  (index + n) * size ≤ length f →
  concat ((chunk_run f size 1 index n).*2) = take (n * size) (drop (index * size) f).
Proof.
  revert index. induction n as [|n IH]; intros index Hlen; [done|].
  rewrite chunk_run_S. cbn [fmap list_fmap concat snd].
  rewrite IH by lia. unfold read_at.
  replace (S n * size) with (size + n * size) by lia.
  rewrite <- (take_drop size (take (size + n * size) (drop (index * size) f))).
  f_equal.
  - rewrite take_take. f_equal. lia.
  - rewrite <- take_drop_commute, drop_drop. f_equal.
    f_equal. lia.
Qed.

Lemma chunk_run_take f size index n k :
  take k (chunk_run f size 1 index n) = chunk_run f size 1 index (k `min` n).
Proof.
  unfold chunk_run. rewrite <- fmap_take. f_equal.
  revert k. generalize 0. induction n as [|n IH]; intros s k.
  - rewrite Nat.min_0_r. simpl. apply take_nil.
  - destruct k as [|k]; [done|]. simpl. f_equal. apply IH.
Qed.

(** What the loop has written when every frame holds its four bytes. *)
Lemma record_loop_output st (chunks : list (nat * list byte)) tail :
  Forall (λ c, 4 ≤ length c.2) chunks →
  (tail = [] ∨ tail = [Interrupt]) →
  rec_output (record_loop st ((Item <$> chunks) ++ tail)).1 =
    rec_output st ++ concat (chunks.*2).
Proof.
  intros Hall Htail. revert st.
  induction Hall as [|[n c] l Hc Hl IH]; intros st.
  - simpl. rewrite app_nil_r. by destruct Htail as [-> | ->].
  - cbn [fmap list_fmap app record_loop].
    destruct (record_frame_ok st c Hc) as (seq & Hseq & Hnone & _).
    assert (rec_output (record_frame st c).1 = rec_output st ++ c) as Hout.
    { unfold record_frame. rewrite Hseq. by destruct (frame_dropped _ _). }
    destruct (record_frame st c) as [st1 e]. cbn [fst snd] in *. subst e.
    rewrite IH, Hout. cbn [concat snd]. by rewrite app_assoc.
Qed.

Lemma record_state_of_loop output device config interrupt :
  (record output device config interrupt).1 =
  (record_loop (mkRecord output "" None 0)
     (interrupted interrupt (FileChunker device (line_length config * 32) 0 None 1 None))).1.
Proof.
  unfold record, tqdm. destruct (record_loop _ _) as [st [e|]]; [|done].
  by destruct e.
Qed.

Lemma record_frames_hold_seq device config :
  1 ≤ line_length config →
  Forall (λ c : nat * list byte, 4 ≤ length c.2)
    (FileChunker device (line_length config * 32) 0 None 1 None).
Proof.
  intros Hlen. apply Forall_forall. intros [n c] Hin. simpl.
  apply chunk_loop_elem in Hin as (? & _). lia.
Qed.

(** The loop over frames that are followed by something else: the frames
    first, then the rest from the state they leave. *)
Lemma record_loop_app st (chunks : list (nat * list byte)) tail :
  Forall (λ c, 4 ≤ length c.2) chunks →
  record_loop st ((Item <$> chunks) ++ tail) =
  record_loop (record_loop st (Item <$> chunks)).1 tail.
Proof.
  intros Hall. revert st.
  induction Hall as [|[n c] l Hc Hl IH]; intros st; [done|].
  destruct (record_frame_ok st c Hc) as (seq & _ & Hnone & _).
  cbn [fmap list_fmap app record_loop].
  destruct (record_frame st c) as [st1 e]. simpl in Hnone. subst e.
  apply IH.
Qed.

(** The state of a capture interrupted after [k] frames, and the state one
    frame later. *)
Lemma record_state_step output device config k c :
  1 ≤ line_length config →
  FileChunker device (line_length config * 32) 0 None 1 None !! k = Some c →
  (record output device config (Some (S k))).1 =
  (record_frame (record output device config (Some k)).1 c.2).1.
Proof.
  intros Hlen Hk. rewrite !record_state_of_loop. unfold interrupted.
  pose proof (record_frames_hold_seq device config Hlen) as Hall.
  set (frames := FileChunker _ _ _ _ _ _) in *.
  rewrite (take_S_r frames k c Hk), fmap_app, <- app_assoc.
  rewrite (record_loop_app _ (take k frames) [Interrupt])
    by (by apply Forall_take).
  rewrite (record_loop_app _ (take k frames) ((Item <$> [c]) ++ [Interrupt]))
    by (by apply Forall_take).
  destruct c as [n chunk]. cbn [fmap list_fmap app record_loop fst snd].
  by destruct (record_frame _ chunk) as [st1 [e|]].
Qed.

(** C5: record reads the device in frames of [32 * line_length] bytes, the
    whole frames of the device in order.  The last four bytes of a frame are
    its sequence number, little-endian, in 0..2^32-1.  Frame after frame the
    number of the frame just read becomes the previous number, and the
    dropped counter is incremented for a frame exactly when there is a
    previous frame and the number of the frame differs from the previous
    frame's number plus one; it is left as it is otherwise, so never for the
    first frame.  [state_after k] is the state of a capture interrupted after
    [k] frames; an uninterrupted capture ends in the state after the last
    frame. *)
Theorem record_drop_detection (output device : list byte) (config : Config) :
  1 ≤ line_length config →
  let size := line_length config * 32 in
  let frames := FileChunker device size 0 None 1 None in
  let state_after := λ k, (record output device config (Some k)).1 in
  length frames = length device / size
  ∧ (∀ k c, frames !! k = Some c →
       c = (k, take size (drop (k * size) device)) ∧
       length c.2 = 32 * line_length config ∧
       ∃ front b0 b1 b2 b3,
         c.2 = front ++ [b0; b1; b2; b3] ∧
         frame_seq c.2 = (byte_val b0 + 256 * byte_val b1 + 65536 * byte_val b2
                          + 16777216 * byte_val b3)%Z ∧
         (0 ≤ frame_seq c.2 < 2 ^ 32)%Z)
  ∧ prev_seq (state_after 0) = None
  ∧ dropped (state_after 0) = 0
  ∧ (∀ k c, frames !! k = Some c →
       prev_seq (state_after (S k)) = Some (frame_seq c.2) ∧
       (dropped (state_after (S k)) = S (dropped (state_after k)) ↔
          ∃ p, prev_seq (state_after k) = Some p ∧ frame_seq c.2 ≠ (p + 1)%Z) ∧
       (dropped (state_after (S k)) = dropped (state_after k) ↔
          ¬ ∃ p, prev_seq (state_after k) = Some p ∧ frame_seq c.2 ≠ (p + 1)%Z))
  ∧ (record output device config None).1 = state_after (length frames)
  ∧ (record output device config None).2 = Returned tt.
Proof.
  intros Hlen size frames state_after.
  pose proof (record_frames_hold_seq device config Hlen) as Hall.
  fold size in Hall. fold frames in Hall.
  assert (frames = chunk_run device size 1 0 (length device / size)) as Hframes
    by (apply FileChunker_unbounded; unfold size; lia).
  split; [by rewrite Hframes; unfold chunk_run; rewrite length_fmap, length_seq|].
  split.
  { intros k c Hk.
    assert (4 ≤ length c.2) as H4
      by (apply (proj1 (Forall_forall _ _) Hall); by eapply list_elem_of_lookup_2).
    assert (c = (k, take size (drop (k * size) device))) as Hc.
    { rewrite Hframes in Hk. unfold chunk_run in Hk.
      rewrite list_lookup_fmap in Hk.
      destruct (seq 0 (length device / size) !! k) as [i|] eqn:Hi; [|done].
      apply lookup_seq in Hi as [-> _]. simpl in Hk. injection Hk as <-.
      unfold read_at. f_equal; [lia|]. do 2 f_equal. lia. }
    split; [exact Hc|]. split.
    { assert (c ∈ frames) as Hin by by eapply list_elem_of_lookup_2.
      destruct c as [n chunk]. apply chunk_loop_elem in Hin as (? & _).
      simpl. unfold size in *. lia. }
    exists (take (length c.2 - 4) c.2).
    assert (length (drop (length c.2 - 4) c.2) = 4) as Hd
      by (rewrite length_drop; lia).
    destruct (drop (length c.2 - 4) c.2) as [|b0 [|b1 [|b2 [|b3 [|? ?]]]]] eqn:Hlast;
      try done.
    exists b0, b1, b2, b3.
    assert (frame_seq c.2 = (byte_val b0 + 256 * byte_val b1 + 65536 * byte_val b2
                             + 16777216 * byte_val b3)%Z) as Hseq
      by (unfold frame_seq, py_slice_last; by rewrite Hlast).
    split; [by rewrite <- Hlast, take_drop|]. split; [exact Hseq|].
    rewrite Hseq. pose proof (byte_val_bound b0). pose proof (byte_val_bound b1).
    pose proof (byte_val_bound b2). pose proof (byte_val_bound b3). lia. }
  assert (state_after 0 = mkRecord output "" None 0) as H0.
  { unfold state_after. rewrite record_state_of_loop. unfold interrupted.
    by rewrite take_0. }
  split; [by rewrite H0|]. split; [by rewrite H0|]. split.
  { intros k c Hk. unfold state_after.
    rewrite (record_state_step output device config k c Hlen Hk).
    set (st := (record output device config (Some k)).1).
    assert (4 ≤ length c.2) as H4
      by (apply (proj1 (Forall_forall _ _) Hall); by eapply list_elem_of_lookup_2).
    destruct (record_frame_ok st c.2 H4) as (seq & Hseq & _ & Hprev & Hdrop).
    assert (frame_seq c.2 = seq) as -> by (unfold frame_seq; by rewrite Hseq).
    rewrite Hprev, Hdrop. unfold frame_dropped.
    destruct (prev_seq st) as [p|];
      [destruct (Z.eqb_spec seq (p + 1)) as [Heq|Hne]|]; cbn [negb];
      (split; [done|]); split; split;
      first [ (intros; lia)
            | by intros (q & [= <-] & ?)
            | by intros _ (q & [= <-] & ?)
            | by intros (q & [=] & ?)
            | by intros _ (q & [=] & ?)
            | by (intros _; eexists)
            | (intros Hno; exfalso; apply Hno; by eexists) ]. }
  split.
  { unfold state_after. rewrite !record_state_of_loop. unfold interrupted.
    fold size. fold frames. rewrite firstn_all.
    rewrite record_loop_app by done.
    rewrite <- (app_nil_r (Item <$> frames)) at 1.
    by rewrite record_loop_app by done. }
  unfold record, tqdm.
  pose proof (record_loop_ends (mkRecord output "" None 0) frames None Hall) as Hends.
  fold size. fold frames.
  destruct (record_loop _ _) as [st e]. simpl in Hends. by rewrite Hends.
Qed.

(** Three 32-byte frames numbered 5, 6 and 8: the third is a drop. *)
Lemma record_drop_detection_witness :
  let frame := λ n, replicate 28 Byte.x00 ++ [byte_of_nat n; Byte.x00; Byte.x00; Byte.x00] in
  let device := frame 5 ++ frame 6 ++ frame 8 in
  length (FileChunker device 32 0 None 1 None) = 3 ∧
  dropped (record [] device (mkConfig 1) None).1 = 1.
Proof.
  intros frame device.
  destruct (record_drop_detection [] device (mkConfig 1) (le_n 1))
    as (Hn & _ & _ & _ & _ & Hend & _).
  split; [exact Hn | by rewrite Hend].
Defined.

(** X1: record copies the device to its output frame by frame: after a
    capture the output holds, after what it held before, exactly the whole
    frames of [32 * line_length] bytes read so far, in order and unchanged;
    the bytes of a trailing partial frame are never written. *)
Theorem record_copies_whole_frames (output device : list byte) (config : Config)
    (interrupt : option nat) :
  1 ≤ line_length config →
  let frame_size := line_length config * 32 in
  let frames := length device / frame_size in
  let copied := match interrupt with None => frames | Some k => k `min` frames end in
  rec_output (record output device config interrupt).1 =
    output ++ take (copied * frame_size) device.
Proof.
  intros Hlen frame_size frames copied.
  rewrite record_state_of_loop.
  pose proof (record_frames_hold_seq device config Hlen) as Hall.
  fold frame_size in Hall |- *.
  rewrite FileChunker_unbounded in Hall |- * by (unfold frame_size; lia).
  fold frames in Hall |- *.
  pose proof (Nat.Div0.mul_div_le (length device) frame_size) as Hlow.
  fold frames in Hlow.
  destruct interrupt as [k|]; unfold interrupted.
  - rewrite record_loop_output; [|by apply Forall_take|by right].
    rewrite chunk_run_take. cbn [rec_output]. f_equal.
    rewrite chunk_run_concat by (subst copied; nia). by rewrite drop_0.
  - rewrite <- (app_nil_r (Item <$> _)).
    rewrite record_loop_output; [|done|by left].
    cbn [rec_output]. f_equal.
    rewrite chunk_run_concat by (subst copied; nia). by rewrite drop_0.
Qed.

(** A device of two 64-byte frames and 10 bytes more, captured in full. *)
Lemma record_copies_whole_frames_witness :
  rec_output (record [] (replicate 138 Byte.x01) (mkConfig 2) None).1 =
    [] ++ take (138 / 64 * 64) (replicate 138 Byte.x01).
Proof.
  apply (record_copies_whole_frames [] (replicate 138 Byte.x01) (mkConfig 2) None).
  simpl. lia.
Defined.

Lemma record_frame_messages st chunk :
  rec_messages st = drop_messages (dropped st) →
  rec_messages (record_frame st chunk).1 = drop_messages (dropped (record_frame st chunk).1).
Proof.
  intros Hinv. unfold record_frame.
  destruct (struct_unpack_le_u32 _) as [seq|e]; [|done].
  destruct (frame_dropped _ _); [|done].
  cbn [fst rec_messages dropped drop_messages]. by rewrite Hinv.
Qed.

Lemma record_loop_messages st events :
  rec_messages st = drop_messages (dropped st) →
  rec_messages (record_loop st events).1 = drop_messages (dropped (record_loop st events).1).
Proof.
  revert st. induction events as [|[[n c]|] rest IH]; intros st Hinv; [done| |done].
  cbn [record_loop]. pose proof (record_frame_messages st c Hinv) as Hstep.
  destruct (record_frame st c) as [st1 [e|]]; [done|]. by apply IH.
Qed.

(** X2: in a capture that runs to the end of the device, whatever the
    device delivers, the text record itself passes to [sys.stderr.write] is
    one line [Frame drop? i] for each drop counted, numbered 1, 2, ... up to
    the final count, in that order. *)
Theorem record_stderr_lists_drops (output device : list byte) (config : Config) :
  rec_messages (record output device config None).1 =
    drop_messages (dropped (record output device config None).1).
Proof. rewrite record_state_of_loop. by apply record_loop_messages. Qed.

Lemma count_drops_none prev seqs :
  count_drops prev seqs = 0 ↔ consecutive prev seqs.
Proof.
  revert prev. induction seqs as [|s rest IH]; intros prev; [done|].
  cbn [count_drops consecutive]. rewrite <- IH. unfold frame_dropped.
  destruct prev as [p|]; [destruct (Z.eqb_spec s (p + 1)) as [Heq|Hne]|]; simpl.
  - split; [intros Hc; split; [done|lia] | intros [_ Hc]; lia].
  - split; [intros Hc; lia | intros [Hs _]; done].
  - split; [intros Hc; split; [done|lia] | intros [_ Hc]; lia].
Qed.

(** X3: an uninterrupted capture counts no drop exactly when the sequence
    numbers of its frames go up by one from each frame to the next. *)
Theorem record_clean_capture (output device : list byte) (config : Config) :
  1 ≤ line_length config →
  let frames := FileChunker device (line_length config * 32) 0 None 1 None in
  let final := (record output device config None).1 in
  dropped final = 0 ↔ consecutive None ((λ c, frame_seq c.2) <$> frames).
Proof.
  intros Hlen frames final.
  assert (dropped final = count_drops None ((λ c, frame_seq c.2) <$> frames)) as Hd.
  { subst final. rewrite record_state_of_loop. unfold interrupted.
    rewrite record_loop_dropped by by apply record_frames_hold_seq. done. }
  rewrite Hd. apply count_drops_none.
Qed.

(** Two 32-byte frames numbered 7 and 8: no drop. *)
Lemma record_clean_capture_witness :
  let frame := λ n, replicate 28 Byte.x00 ++ [byte_of_nat n; Byte.x00; Byte.x00; Byte.x00] in
  dropped (record [] (frame 7 ++ frame 8) (mkConfig 1) None).1 = 0.
Proof.
  intros frame.
  apply (record_clean_capture [] (frame 7 ++ frame 8) (mkConfig 1) (le_n 1)).
  vm_compute. done.
Defined.

Lemma struct_unpack_le_u32_bound b seq :
  struct_unpack_le_u32 b = Returned seq → (0 ≤ seq < 2 ^ 32)%Z.
Proof.
  destruct b as [|b0 [|b1 [|b2 [|b3 [|? ?]]]]]; try done. intros [= <-].
  pose proof (byte_val_bound b0). pose proof (byte_val_bound b1).
  pose proof (byte_val_bound b2). pose proof (byte_val_bound b3). lia.
Qed.

(** X4: the sequence numbers are compared without wrap-around: the frame
    that follows sequence number 0xFFFFFFFF is counted as a drop whatever
    number it carries, 0 included. *)
Theorem record_wraps_as_drop (st : record_state) (chunk : list byte) :
  4 ≤ length chunk →
  prev_seq st = Some (2 ^ 32 - 1)%Z →
  dropped (record_frame st chunk).1 = S (dropped st).
Proof.
  intros Hlen Hprev.
  destruct (record_frame_ok st chunk Hlen) as (seq & Hseq & _ & _ & Hd).
  apply struct_unpack_le_u32_bound in Hseq.
  rewrite Hd, Hprev. unfold frame_dropped.
  destruct (Z.eqb_spec seq (2 ^ 32 - 1 + 1)); [lia|]. simpl. lia.
Qed.

(** The frame numbered 0 after the frame numbered 0xFFFFFFFF. *)
Lemma record_wraps_as_drop_witness :
  dropped (record_frame (mkRecord [] "" (Some (2 ^ 32 - 1)%Z) 0)
             (replicate 32 Byte.x00)).1 = 1.
Proof.
  apply (record_wraps_as_drop (mkRecord [] "" (Some (2 ^ 32 - 1)%Z) 0)
           (replicate 32 Byte.x00)); [simpl; lia | reflexivity].
Defined.

(* ------------------------------------------------------------------ *)
(** ** packetreader and the raw VBI commands                            *)
(* ------------------------------------------------------------------ *)

Lemma packetreader_chunks_tuples chunker wst :
  packetreader_chunks chunker wst =
  Returned (chunk_tuple <$> chunker (if wst then 43 else 42)).
Proof. destruct wst; [apply packetreader_chunks_wst | done]. Qed.

Lemma packetreader_spec {M : Mrag} chunker wst mags rows progress
    mag_hist row_hist err_hist :
  packetreader chunker wst mags rows progress mag_hist row_hist err_hist =
  if default true progress && err_hist && negb (mag_hist || row_hist)
  then Raised AttributeError
  else Returned (filter (λ p, mrag_selected mags rows p)
                   ((λ c, mkPacket c.2 (Z.of_nat c.1)) <$>
                      chunker (if wst then 43 else 42))).
Proof.
  unfold packetreader. rewrite packetreader_chunks_tuples. simpl.
  assert (∀ l, (if default true progress then tqdm l else l) = l) as ->
    by (intros; unfold tqdm; by destruct (default true progress)).
  rewrite packetreader_construct_tuples. simpl. rewrite histograms_spec.
  by destruct (default true progress), mag_hist, row_hist, err_hist.
Qed.

(** X5: packetreader as a whole on a t42 stream, without [--wst].  With the
    progress bar on (the default) and the error histogram asked for without
    the magazine or the row histogram, there is no StatsList to attach it to
    and the wrapper fails with an AttributeError before a packet is read; in
    every other case it hands on, in input order, one packet per 42-byte
    chunk of the input whose magazine and row are selected, numbered as its
    chunk. *)
Theorem packetreader_outcome {M : Mrag} (f : list byte) start stop step limit
    mags rows progress mag_hist row_hist err_hist :
  packetreader (λ size, FileChunker f size start stop step limit) false
    mags rows progress mag_hist row_hist err_hist =
  if default true progress && err_hist && negb (mag_hist || row_hist)
  then Raised AttributeError
  else Returned (filter (λ p, mrag_selected mags rows p)
                   ((λ c, mkPacket c.2 (Z.of_nat c.1)) <$>
                      FileChunker f 42 start stop step limit)).
Proof.
  exact (packetreader_spec (λ size, FileChunker f size start stop step limit) false
           mags rows progress mag_hist row_hist err_hist).
Qed.

(** X6: without [--wst] every packet handed on is exactly 42 bytes long: the
    42 bytes of the input at offset [42 * number], whatever the length of the
    input and the values of start, stop, step and limit. *)
Theorem t42_packets_are_42_bytes {M : Mrag} f start stop step limit mags rows
    progress mag_hist row_hist err_hist packets p :
  packetreader (λ size, FileChunker f size start stop step limit) false
    mags rows progress mag_hist row_hist err_hist = Returned packets →
  p ∈ packets →
  length (_array p) = 42 ∧
  (0 ≤ _number p)%Z ∧
  _array p = read_at f (Z.to_nat (_number p) * 42) 42 ∧
  (Z.to_nat (_number p) + 1) * 42 ≤ length f.
Proof.
  intros ->%packetreader_t42 [_ Hin]%list_elem_of_filter.
  apply list_elem_of_fmap in Hin as ([i c] & -> & Hin). simpl.
  apply chunk_loop_elem in Hin as (Hlen & Hc & _).
  rewrite Nat2Z.id. repeat split; [done|lia|done|].
  rewrite Hc in Hlen. unfold read_at in Hlen.
  rewrite length_take, length_drop in Hlen. lia.
Qed.

(** A t42 stream of one packet and 20 bytes more. *)
Lemma t42_packets_are_42_bytes_witness :
  let f := example_payload Byte.xa1 Byte.x15 Byte.x20 ++ replicate 20 Byte.x00 in
  length (_array (mkPacket (example_payload Byte.xa1 Byte.x15 Byte.x20) 0)) = 42.
Proof.
  intros f.
  refine (proj1 (@t42_packets_are_42_bytes example_mrag f 0 None 1 None
                   (Range 9) (Range 32) None false false false
                   [mkPacket (example_payload Byte.xa1 Byte.x15 Byte.x20) 0]
                   (mkPacket (example_payload Byte.xa1 Byte.x15 Byte.x20) 0) _ _)).
  - vm_compute. reflexivity.
  - apply list_elem_of_here.
Defined.

Lemma vbi_lines_spec chunks extra_roll progress rejects has_stats :
  vbi_lines chunks extra_roll progress rejects has_stats =
  if progress && rejects && negb has_stats then Raised AttributeError
  else Returned ((λ c, mkLine c.2 c.1 extra_roll) <$> chunks).
Proof.
  unfold vbi_lines, postfix_append, Rejects.
  by destruct progress, rejects, has_stats.
Qed.

(** X7: [slice] and [deconvolve] as a whole.  With the progress bar on and
    the error histogram asked for while the magazine histogram, the row
    histogram and the reject counter are all off, the command fails with an
    AttributeError; in every other case it emits, in line order, the packet
    of each line that is teletext and whose recovery returns one. *)
Theorem vbi_command_outcome {M : Mrag} {D : LineDsp} chunker mags rows config
    force_cpu extra_roll progress mag_hist row_hist err_hist rejects :
  let lines := (λ c, mkLine c.2 c.1 extra_roll) <$> chunker (line_length config) in
  let fails := progress && err_hist && negb (mag_hist || row_hist || rejects) in
  slice chunker mags rows config extra_roll progress mag_hist row_hist err_hist
    rejects =
    (if fails then Raised AttributeError
     else Returned (omap (Line_slice config mags rows)
                      (filter (λ l, is_teletext config l) lines)))
  ∧ deconvolve chunker mags rows config force_cpu extra_roll progress mag_hist
      row_hist err_hist rejects =
    (if fails then Raised AttributeError
     else Returned (omap (Line_deconvolve config (negb force_cpu) mags rows)
                      (filter (λ l, is_teletext config l) lines))).
Proof.
  intros lines fails. subst fails.
  assert (∀ {A B} (h : A → option B) (l : list A), omap id (h <$> l) = omap h l)
    as Homap.
  { intros A B h l. induction l as [|a l IH]; [done|].
    cbn [fmap list_fmap omap list_omap]. simpl. by rewrite <- IH. }
  split.
  - unfold slice. rewrite vbi_lines_spec.
    assert (∀ l : list (nat * list byte), (if progress then tqdm l else l) = l) as ->
      by (intros; unfold tqdm; by destruct progress).
    destruct progress, mag_hist, row_hist, err_hist, rejects; simpl;
      try done; rewrite histograms_spec; simpl; by rewrite Homap.
  - unfold deconvolve. rewrite vbi_lines_spec.
    assert (∀ l : list (nat * list byte), (if progress then tqdm l else l) = l) as ->
      by (intros; unfold tqdm; by destruct progress).
    destruct progress, mag_hist, row_hist, err_hist, rejects; simpl;
      try done; rewrite histograms_spec; simpl; by rewrite Homap.
Qed.

(* ------------------------------------------------------------------ *)
(** ** The filter command                                               *)
(* ------------------------------------------------------------------ *)

Lemma int16_raises x e : int16 x = Raised e → e = ValueError.
Proof.
  unfold int16.
  destruct (match skip_spaces x with
            | String "+"%char r => (false, r)
            | String "-"%char r => (true, r)
            | _ => (false, skip_spaces x)
            end) as [negative s].
  repeat (case_match; try done); by intros [= <-].
Qed.

Lemma mapM_int16_raises xs e : mapM int16 xs = Raised e → e = ValueError.
Proof.
  induction xs as [|x xs IH]; [done|]. cbn [mapM].
  destruct (int16 x) as [v|e'] eqn:Hx; simpl.
  - destruct (mapM int16 xs) as [vs|e'']; simpl; [done|].
    intros [= <-]. by apply IH.
  - intros [= <-]. by apply int16_raises in Hx.
Qed.

Lemma accepted_set_raises dflt given e :
  accepted_set dflt given = Raised e → e = ValueError.
Proof.
  destruct given as [[|x xs]|]; unfold accepted_set; cbv beta iota; try done.
  destruct (mapM int16 (x :: xs)) as [vs|e'] eqn:Hm; simpl; [done|].
  intros [= <-]. by apply mapM_int16_raises in Hm.
Qed.

Lemma teletext_filter_raises {P : Pipeline} packets pages subpages flag e :
  teletext_filter packets pages subpages flag = Raised e → e = ValueError.
Proof.
  unfold teletext_filter.
  destruct (accepted_set (Range 0x900) pages) as [[ps gp]|e1] eqn:Hp; simpl.
  - destruct (accepted_set (Range 0x3f7f) subpages) as [[ss gs]|e2] eqn:Hs; simpl.
    + by repeat case_match.
    + intros [= <-]. by apply accepted_set_raises in Hs.
  - intros [= <-]. by apply accepted_set_raises in Hp.
Qed.

Lemma drain_raises {A} (events : list (event A)) e :
  drain events = Raised e → e = KeyboardInterrupt.
Proof.
  induction events as [|[a|] rest IH]; simpl; [done|done|]. by intros [= <-].
Qed.

(** X8: the error histogram alone ends filter in an AttributeError exactly
    when the progress bar is on: with [--progress], or by default when no
    output is a terminal and the input is not a FIFO.  With the bar off, or
    with a magazine or row histogram beside it, the command never ends that
    way. *)
Theorem filter_err_hist_needs_stats {M : Mrag} {P : Pipeline} output input
    start stop step limit wst mags rows progress mag_hist row_hist err_hist
    pages subpages paginate_flag interrupt :
  input_isatty input = false →
  filter_command output input start stop step limit wst mags rows progress
    mag_hist row_hist err_hist pages subpages paginate_flag interrupt
    = Raised AttributeError
  ↔ progress_shown output input progress && err_hist
      && negb (mag_hist || row_hist) = true.
Proof.
  intros Htty.
  assert (∀ shown,
    (filtered ←
       (packets ← (if shown && err_hist && negb (mag_hist || row_hist)
                   then Raised AttributeError
                   else Returned (filter (λ p, mrag_selected mags rows p)
                          ((λ c, mkPacket c.2 (Z.of_nat c.1)) <$>
                             FileChunker (input_content input)
                               (if wst then 43 else 42) start stop step limit)));
        teletext_filter packets pages subpages paginate_flag);
     drain (interrupted interrupt (foldl to_file filtered output)))
      = Raised AttributeError
    ↔ shown && err_hist && negb (mag_hist || row_hist) = true) as Htail.
  { intros shown.
    destruct (shown && err_hist && negb (mag_hist || row_hist)); simpl; [done|].
    split; [|done]. intros Hrun.
    destruct (teletext_filter _ pages subpages paginate_flag) as [l|e] eqn:Hf;
      simpl in Hrun.
    - by apply drain_raises in Hrun.
    - apply teletext_filter_raises in Hf. by simplify_eq. }
  unfold filter_command, packetwriter, chunkreader, progress_shown. rewrite Htty.
  destruct progress as [b|];
    [|destruct (existsb snd output); [|destruct (input_is_fifo input)]];
    cbn beta iota; rewrite packetreader_spec.
  - exact (Htail b).
  - exact (Htail false).
  - exact (Htail false).
  - exact (Htail true).
Qed.

(** [filter --err-hist] on a file, output to a file, no progress flag. *)
Lemma filter_err_hist_needs_stats_witness :
  @filter_command example_mrag example_pipeline [("auto"%string, false)]
    (mkInput false false []) 0 None 1 None false (Range 9) (Range 32) None
    false false true None None false None = Raised AttributeError.
Proof.
  apply (@filter_err_hist_needs_stats example_mrag example_pipeline);
    reflexivity.
Defined.

(* ------------------------------------------------------------------ *)
(** ** The accepted sets of filter and squash                           *)
(* ------------------------------------------------------------------ *)

(* ------------------------------------------------------------------ *)
(** ** celp_print over a stream                                         *)
(* ------------------------------------------------------------------ *)

Lemma celp_decode_spec {C : Coding} {M : Mrag} rows p b2 b3 :
  _array p !! 2 = Some b2 → _array p !! 3 = Some b3 →
  celp_decode rows p =
  if (mrag_magazine p =? 4)%Z && contains rows (mrag_row p)
  then Returned (Some (mkCelp (mrag_magazine p + Z.shiftl (Z.land (mrag_row p) 1) 3)
                         (hamming8_decode b3) (hamming8_decode b2)
                         (py_slice 4 23 (_array p)) (py_slice 23 42 (_array p))))
  else Returned None.
Proof.
  intros H2 H3. unfold celp_decode. destruct (_ && _); [|done].
  pose proof (py_getitem_lookup (_array p) 2 b2 H2) as G2.
  pose proof (py_getitem_lookup (_array p) 3 b3 H3) as G3.
  change (Z.of_nat 2) with 2%Z in G2. change (Z.of_nat 3) with 3%Z in G3.
  rewrite G2. simpl. by rewrite G3.
Qed.

Lemma celp_frames_of_payload (arr : list byte) :
  length arr = 42 →
  py_slice 4 23 arr ++ py_slice 23 42 arr = py_slice 4 42 arr ∧
  length (py_slice 4 42 arr) = 38.
Proof.
  intros Hlen. split; [|rewrite py_slice_length; lia].
  unfold py_slice. change (23 - 4) with 19. change (42 - 23) with 19.
  change (42 - 4) with (19 + 19). change 23 with (4 + 19).
  rewrite <- (drop_drop arr 19 4).
  rewrite <- (take_drop 19 (take (19 + 19) (drop 4 arr))). f_equal.
  - rewrite take_take. by f_equal.
  - rewrite <- take_drop_commute. done.
Qed.

Lemma celp_print_from_file {C : Coding} {M : Mrag} (packets : list Packet)
    (rows : container) out :
  Forall (λ p, length (_array p) = 42) packets →
  celp_print_from rows true out packets =
    Returned (mkCelpOut (printed out)
      (written out ++
       (filter (λ p, (mrag_magazine p =? 4)%Z && contains rows (mrag_row p))
          packets ≫= λ p, py_slice 4 42 (_array p)))).
Proof.
  intros Hall. revert out.
  induction Hall as [|p l Hp Hl IH]; intros out.
  - destruct out. simpl. by rewrite app_nil_r.
  - destruct (_array p !! 2) as [b2|] eqn:H2;
      [|apply lookup_ge_None in H2; lia].
    destruct (_array p !! 3) as [b3|] eqn:H3;
      [|apply lookup_ge_None in H3; lia].
    cbn [celp_print_from]. unfold celp_print_packet.
    rewrite (celp_decode_spec rows p b2 b3 H2 H3).
    destruct (celp_frames_of_payload (_array p) Hp) as [Hcat _].
    rewrite filter_cons.
    destruct ((mrag_magazine p =? 4)%Z && contains rows (mrag_row p)) eqn:Hsel.
    + rewrite decide_True by done. simpl. rewrite IH. cbn [printed written].
      rewrite <- Hcat. by rewrite !app_assoc.
    + rewrite decide_False by (by intros []). simpl. by rewrite IH.
Qed.

(** X10: given a file, celp_print writes for each packet of magazine 4 whose
    row is selected, in stream order, its bytes 4..41, and for the other
    packets nothing: over 42-byte packets the dump is 38 bytes per selected
    packet, and nothing is printed. *)
Theorem celp_print_dump {C : Coding} {M : Mrag} (packets : list Packet)
    (rows : container) :
  Forall (λ p, length (_array p) = 42) packets →
  let selected :=
    filter (λ p, (mrag_magazine p =? 4)%Z && contains rows (mrag_row p)) packets in
  celp_print packets rows true =
    Returned (mkCelpOut "" (selected ≫= λ p, py_slice 4 42 (_array p)))
  ∧ length (selected ≫= λ p, py_slice 4 42 (_array p)) = 38 * length selected.
Proof.
  intros Hall selected. split.
  - subst selected. unfold celp_print. by rewrite celp_print_from_file.
  - assert (Forall (λ p, length (_array p) = 42) selected) as Hsel
      by (apply Forall_forall; intros p [_ Hp]%list_elem_of_filter;
          by apply (proj1 (Forall_forall _ _) Hall)).
    induction Hsel as [|p l Hp Hl IH]; [done|].
    rewrite bind_cons, length_app, IH.
    destruct (celp_frames_of_payload (_array p) Hp) as [_ ->]. simpl. lia.
Qed.

(** A stream of a CELP packet and a packet of magazine 1. *)
Lemma celp_print_dump_witness :
  let p := mkPacket (Byte.xa1 :: Byte.x15 :: Byte.x02 :: Byte.x49 ::
                     (byte_of_nat <$> seq 4 38)) 0 in
  let q := mkPacket (example_payload Byte.x02 Byte.x15 Byte.x20) 1 in
  @celp_print example_coding example_mrag [p; q] (Range 32) true =
    Returned (mkCelpOut "" (byte_of_nat <$> seq 4 38)).
Proof.
  intros p q.
  refine (proj1 (@celp_print_dump example_coding example_mrag [p; q] (Range 32) _)).
  repeat constructor.
Defined.

Lemma land_1_odd r : Z.land r 1 = if Z.odd r then 1%Z else 0%Z.
Proof.
  change 1%Z with (Z.ones 1) at 1. rewrite Z.land_ones by lia.
  rewrite Z.pow_1_r, Zmod_odd. done.
Qed.

(** X11: the data channel celp_print computes is 4 for an even row and 12 for
    an odd one, never anything else: one of the two branches of the printed
    text, programme-related or programme-independent audio, is always
    taken. *)
Theorem celp_dcn_is_4_or_12 {C : Coding} {M : Mrag} (rows : container)
    (p : Packet) (c : celp_fields) :
  celp_decode rows p = Returned (Some c) →
  mrag_magazine p = 4%Z ∧ contains rows (mrag_row p) = true ∧
  dcn c = (if Z.odd (mrag_row p) then 12 else 4)%Z.
Proof.
  unfold celp_decode.
  destruct (Z.eqb_spec (mrag_magazine p) 4) as [Hm|Hm]; [|done].
  destruct (contains rows (mrag_row p)) eqn:Hr; [|done]. simpl.
  destruct (py_getitem (_array p) 2) as [b2|e]; [simpl|done].
  destruct (py_getitem (_array p) 3) as [b3|e]; [simpl|done].
  intros [= <-]. simpl. rewrite Hm, land_1_odd.
  by destruct (Z.odd (mrag_row p)).
Qed.

(** The packet of magazine 4, row 1. *)
Lemma celp_dcn_is_4_or_12_witness :
  let p := mkPacket (Byte.xa1 :: Byte.x15 :: Byte.x02 :: Byte.x49 ::
                     (byte_of_nat <$> seq 4 38)) 0 in
  @mrag_magazine example_mrag p = 4%Z.
Proof.
  intros p.
  refine (proj1 (@celp_dcn_is_4_or_12 example_coding example_mrag (Range 32) p
                   (mkCelp 12 2 1 (byte_of_nat <$> seq 4 19)
                      (byte_of_nat <$> seq 23 19)) _)).
  vm_compute. reflexivity.
Defined.

Lemma py_getitem_in_range {A} (l : list A) (i : Z) :
  (0 ≤ i < Z.of_nat (length l))%Z → ∃ a, py_getitem l i = Returned a.
Proof.
  intros Hi. destruct (l !! Z.to_nat i) as [a|] eqn:Ha.
  - exists a. rewrite <- (Z2Nat.id i) by lia. by apply py_getitem_lookup.
  - apply lookup_ge_None in Ha. lia.
Qed.

Lemma nibble_without_bit3 (v : Z) :
  (0 ≤ v < 16)%Z → Z.land v 8 = 0%Z → (0 ≤ v < 8)%Z.
Proof.
  intros Hv Hland.
  assert (v = 0 ∨ v = 1 ∨ v = 2 ∨ v = 3 ∨ v = 4 ∨ v = 5 ∨ v = 6 ∨ v = 7 ∨
          v = 8 ∨ v = 9 ∨ v = 10 ∨ v = 11 ∨ v = 12 ∨ v = 13 ∨ v = 14 ∨ v = 15)%Z
    as Hcases by lia.
  repeat (destruct Hcases as [-> | Hcases]; [first [lia | discriminate Hland]|]).
  subst v. discriminate Hland.
Qed.

(** X12: with a decoder that returns nibbles, printing a packet never fails:
    the two table lookups of the printed text, [dblevels] by the low three
    bits of the control nibble and [servicetypes] by a service nibble whose
    bit 3 is clear, are always in range.  Nothing is written to the file, and
    a packet that is not selected prints nothing. *)
Theorem celp_print_text_in_range {C : Coding} {M : Mrag} (rows : container)
    (out : celp_output) (p : Packet) :
  (∀ b, (0 ≤ hamming8_decode b < 16)%Z) →
  4 ≤ length (_array p) →
  ∃ out', celp_print_packet rows false out p = Returned out' ∧
          written out' = written out ∧
          ((mrag_magazine p =? 4)%Z && contains rows (mrag_row p) = false →
           out' = out).
Proof.
  intros Hnibble Hlen.
  destruct (_array p !! 2) as [b2|] eqn:H2; [|apply lookup_ge_None in H2; lia].
  destruct (_array p !! 3) as [b3|] eqn:H3; [|apply lookup_ge_None in H3; lia].
  unfold celp_print_packet. rewrite (celp_decode_spec rows p b2 b3 H2 H3).
  destruct (_ && _) eqn:Hsel; simpl; [|by exists out].
  set (c := mkCelp _ _ _ _ _).
  assert (∃ text, celp_text p c = Returned text) as [text Htext].
  { unfold celp_text. subst c. cbn [dcn service control frame0 frame1].
    set (d := (mrag_magazine p + Z.shiftl (Z.land (mrag_row p) 1) 3)%Z).
    destruct (d =? 4)%Z.
    - destruct (py_getitem dblevels (Z.land (hamming8_decode b2) 7)) as [db|e] eqn:Hdb;
        [simpl; by eexists|].
      destruct (py_getitem_in_range dblevels (Z.land (hamming8_decode b2) 7))
        as [db Hok]; [|congruence].
      pose proof (land_upper_bound (hamming8_decode b2) 7 ltac:(lia)).
      assert (0 ≤ Z.land (hamming8_decode b2) 7)%Z by (apply Z.land_nonneg; lia).
      simpl. lia.
    - destruct (d =? 12)%Z; [|simpl; by eexists].
      destruct (Z.eqb_spec (Z.land (hamming8_decode b3) 8) 0) as [Hbit|Hbit];
        cbn [negb].
      + destruct (py_getitem servicetypes (hamming8_decode b3)) as [ty|e] eqn:Hty;
          [simpl; by eexists|].
        destruct (py_getitem_in_range servicetypes (hamming8_decode b3))
          as [ty Hok]; [|congruence].
        pose proof (nibble_without_bit3 _ (Hnibble b3) Hbit). simpl. lia.
      + pose proof (py_getitem_lookup (_array p) 3 b3 H3) as G3.
        change (Z.of_nat 3) with 3%Z in G3. rewrite G3. simpl. by eexists. }
  rewrite Htext. simpl. by eexists.
Qed.

Lemma hamming8_message_nibble b : (0 ≤ hamming8_message b < 16)%Z.
Proof.
  unfold hamming8_message.
  destruct (Z.testbit _ 1), (Z.testbit _ 3), (Z.testbit _ 5), (Z.testbit _ 7);
    simpl; lia.
Qed.

(** The packet of magazine 4, row 1, printed. *)
Lemma celp_print_text_in_range_witness :
  let p := mkPacket (Byte.xa1 :: Byte.x15 :: Byte.x02 :: Byte.x49 ::
                     (byte_of_nat <$> seq 4 38)) 0 in
  ∃ out', @celp_print_packet example_coding example_mrag (Range 32) false
            (mkCelpOut "" []) p = Returned out' ∧ written out' = [].
Proof.
  intros p.
  destruct (@celp_print_text_in_range example_coding example_mrag (Range 32)
              (mkCelpOut "" []) p hamming8_message_nibble)
    as (out' & Hrun & Hw & _).
  - simpl. lia.
  - by exists out'.
Defined.

(* ------------------------------------------------------------------ *)
(** ** What celp_print computes and what it outputs                     *)
(* ------------------------------------------------------------------ *)

Lemma append_nil_r (s : string) : s +:+ "" = s.
Proof.
  induction s as [|c s IH]; [done|].
  change (String c (s +:+ "") = String c s). by f_equal.
Qed.

Lemma append_assoc (s1 s2 s3 : string) : (s1 +:+ s2) +:+ s3 = s1 +:+ s2 +:+ s3.
Proof.
  induction s1 as [|c s1 IH]; [done|].
  change (String c ((s1 +:+ s2) +:+ s3) = String c (s1 +:+ s2 +:+ s3)). by f_equal.
Qed.

Lemma py_getitem_default {A} (l : list A) (i : Z) (d : A) :
  (0 ≤ i < Z.of_nat (length l))%Z →
  py_getitem l i = Returned (default d (l !! Z.to_nat i)).
Proof.
  intros Hi. destruct (l !! Z.to_nat i) as [a|] eqn:Ha.
  - rewrite <- (Z2Nat.id i) by lia. by apply py_getitem_lookup.
  - apply lookup_ge_None in Ha. lia.
Qed.

(** The text printed for a packet of magazine 4: lines 36-48 at the values
    lines 29-34 compute. *)
Lemma celp_text_line {C : Coding} {M : Mrag} (p : Packet) (b2 b3 : byte) :
  (∀ b, (0 ≤ hamming8_decode b < 16)%Z) →
  _array p !! 3 = Some b3 →
  mrag_magazine p = 4%Z →
  let c := mkCelp (mrag_magazine p + Z.shiftl (Z.land (mrag_row p) 1) 3)
             (hamming8_decode b3) (hamming8_decode b2)
             (py_slice 4 23 (_array p)) (py_slice 23 42 (_array p)) in
  celp_text p c = Returned
    ((("DCN: " +:+ pretty (dcn c) +:+ " (" +:+ pretty (mrag_magazine p)
             +:+ "/" +:+ pretty (mrag_row p) +:+ ") ")
            +:+ (if Z.odd (mrag_row p) then
                   if (Z.land (service c) 8 =? 0)%Z then
                     "Programme-independant audio. "
                     +:+ default "" (servicetypes !! Z.to_nat (service c)) +:+ " "
                     +:+ (if (control c =? 0)%Z then ""
                          else "Control: " +:+ hex (control c))
                     +:+ newline
                   else
                     "Programme-independant audio. User-defined service "
                     +:+ hex (Z.land (service c) 7) +:+ " "
                     +:+ hex (byte_val b3) +:+ newline
                 else
                   "Programme-related audio. Service: "
                   +:+ (if (service c =? 0)%Z then "AUDETEL" else hex (service c))
                   +:+ " Control: " +:+ hex (control c) +:+ " "
                   +:+ pretty (default 0%Z (dblevels !! Z.to_nat (Z.land (control c) 7)))
                   +:+ " dB "
                   +:+ (if (Z.land (control c) 8 =? 0)%Z then "" else "(muted)")
                   +:+ newline)
            +:+ bytes_hex (frame0 c) +:+ " " +:+ bytes_hex (frame1 c) +:+ newline)).
Proof.
  intros Hnibble H3 Hmag c. unfold celp_text.
  assert (dcn c = if Z.odd (mrag_row p) then 12%Z else 4%Z) as Hdcn.
  { subst c. cbn [dcn]. rewrite Hmag, land_1_odd. by destruct (Z.odd (mrag_row p)). }
  rewrite Hdcn. subst c. cbn [service control frame0 frame1].
  destruct (Z.odd (mrag_row p)); cbn [Z.eqb Pos.eqb].
  - destruct (Z.eqb_spec (Z.land (hamming8_decode b3) 8) 0) as [Hbit|Hbit];
      cbn [negb].
    + pose proof (nibble_without_bit3 _ (Hnibble b3) Hbit) as Hs.
      rewrite (py_getitem_default servicetypes (hamming8_decode b3) "")
        by (simpl; lia).
      done.
    + pose proof (py_getitem_lookup (_array p) 3 b3 H3) as G3.
      change (Z.of_nat 3) with 3%Z in G3. rewrite G3. done.
  - pose proof (land_upper_bound (hamming8_decode b2) 7 ltac:(lia)).
    assert (0 ≤ Z.land (hamming8_decode b2) 7)%Z by (apply Z.land_nonneg; lia).
    rewrite (py_getitem_default dblevels (Z.land (hamming8_decode b2) 7) 0%Z)
      by (simpl; lia).
    done.
Qed.

(** Printing a stream: the lines of the selected packets, in order, after
    what was printed before. *)
Lemma celp_print_from_text {C : Coding} {M : Mrag} (line : Packet → string)
    (packets : list Packet) (rows : container) out :
  (∀ p out, p ∈ packets →
     celp_print_packet rows false out p =
       Returned (mkCelpOut
         (printed out +:+
          (if (mrag_magazine p =? 4)%Z && contains rows (mrag_row p)
           then line p else ""))
         (written out))) →
  celp_print_from rows false out packets =
    Returned (mkCelpOut
      (printed out +:+
       foldr (λ p acc, line p +:+ acc) ""
         (filter (λ p, (mrag_magazine p =? 4)%Z && contains rows (mrag_row p))
            packets))
      (written out)).
Proof.
  revert out. induction packets as [|p l IH]; intros out Hstep.
  - destruct out. simpl. by rewrite append_nil_r.
  - cbn [celp_print_from]. rewrite (Hstep p out) by apply list_elem_of_here.
    cbn [mbind outcome_bind].
    rewrite IH by (intros q out' Hq; apply Hstep; by apply list_elem_of_further).
    cbn [printed written]. rewrite filter_cons.
    destruct ((mrag_magazine p =? 4)%Z && contains rows (mrag_row p)) eqn:Hsel.
    + rewrite decide_True by done. cbn [foldr]. by rewrite append_assoc.
    + rewrite decide_False by (by intros []). by rewrite append_nil_r.
Qed.

(** C3 as stated: the hook yields the tuple (dcn, service, control, frame0,
    frame1).  It yields nothing; what it produces is what it writes or
    prints.  Given a file, two packets of magazine 4 and row 1 that differ
    in bytes 2 and 3, so in [control] and in [service], produce the same 38
    bytes: the tuple is not what comes out. *)
Lemma celp_print_yields_no_tuple :
  let p := mkPacket (Byte.xa1 :: Byte.x15 :: Byte.x02 :: Byte.x49 ::
                     (byte_of_nat <$> seq 4 38)) 0 in
  let q := mkPacket (Byte.xa1 :: Byte.x15 :: Byte.x49 :: Byte.x02 ::
                     (byte_of_nat <$> seq 4 38)) 0 in
  @celp_decode example_coding example_mrag (Range 32) p =
    Returned (Some (mkCelp 12 2 1 (byte_of_nat <$> seq 4 19)
                                  (byte_of_nat <$> seq 23 19))) ∧
  @celp_decode example_coding example_mrag (Range 32) q =
    Returned (Some (mkCelp 12 1 2 (byte_of_nat <$> seq 4 19)
                                  (byte_of_nat <$> seq 23 19))) ∧
  @celp_print example_coding example_mrag [p] (Range 32) true =
    Returned (mkCelpOut "" (byte_of_nat <$> seq 4 38)) ∧
  @celp_print example_coding example_mrag [q] (Range 32) true =
    Returned (mkCelpOut "" (byte_of_nat <$> seq 4 38)).
Proof. vm_compute. done. Qed.

(** C3, amended: for every 42-byte packet of the stream on magazine 4 whose
    row is in [rows], celp_print computes [dcn = magazine + ((row & 1) << 3)]
    (4 or 12), [control] as the Hamming decode of byte 2, [service] as that
    of byte 3, [frame0] as the 19 bytes 4..22 and [frame1] as the 19 bytes
    23..41, and for any other packet nothing.  It yields no tuple: given a
    file it writes [frame0] then [frame1] of each such packet, in stream
    order, and prints nothing; without a file it writes nothing and prints,
    for each such packet, the data channel with magazine and row, the
    description of the service and the control value, and on a second line
    the two frames in hexadecimal.  The decoder is taken to return
    nibbles. *)
Theorem celp_print_outputs {C : Coding} {M : Mrag} (packets : list Packet)
    (rows : container) :
  (∀ b, (0 ≤ hamming8_decode b < 16)%Z) →
  Forall (λ p, length (_array p) = 42) packets →
  let is_celp := λ p, (mrag_magazine p =? 4)%Z && contains rows (mrag_row p) in
  let selected := filter (λ p, is_celp p) packets in
  let byte := λ (p : Packet) (i : nat), default Byte.x00 (_array p !! i) in
  let fields := λ p,
    mkCelp (mrag_magazine p + Z.shiftl (Z.land (mrag_row p) 1) 3)
           (hamming8_decode (byte p 3)) (hamming8_decode (byte p 2))
           (py_slice 4 23 (_array p)) (py_slice 23 42 (_array p)) in
  let line := λ p, let c := fields p in
    ((("DCN: " +:+ pretty (dcn c) +:+ " (" +:+ pretty (mrag_magazine p)
             +:+ "/" +:+ pretty (mrag_row p) +:+ ") ")
            +:+ (if Z.odd (mrag_row p) then
                   if (Z.land (service c) 8 =? 0)%Z then
                     "Programme-independant audio. "
                     +:+ default "" (servicetypes !! Z.to_nat (service c)) +:+ " "
                     +:+ (if (control c =? 0)%Z then ""
                          else "Control: " +:+ hex (control c))
                     +:+ newline
                   else
                     "Programme-independant audio. User-defined service "
                     +:+ hex (Z.land (service c) 7) +:+ " "
                     +:+ hex (byte_val (byte p 3)) +:+ newline
                 else
                   "Programme-related audio. Service: "
                   +:+ (if (service c =? 0)%Z then "AUDETEL" else hex (service c))
                   +:+ " Control: " +:+ hex (control c) +:+ " "
                   +:+ pretty (default 0%Z (dblevels !! Z.to_nat (Z.land (control c) 7)))
                   +:+ " dB "
                   +:+ (if (Z.land (control c) 8 =? 0)%Z then "" else "(muted)")
                   +:+ newline)
            +:+ bytes_hex (frame0 c) +:+ " " +:+ bytes_hex (frame1 c) +:+ newline)) in
  (∀ p, p ∈ packets →
     celp_decode rows p = Returned (if is_celp p then Some (fields p) else None))
  ∧ (∀ p, p ∈ selected →
       mrag_magazine p = 4%Z ∧
       dcn (fields p) = (if Z.odd (mrag_row p) then 12 else 4)%Z ∧
       length (frame0 (fields p)) = 19 ∧ length (frame1 (fields p)) = 19 ∧
       _array p = take 4 (_array p) ++ frame0 (fields p) ++ frame1 (fields p))
  ∧ celp_print packets rows true =
      Returned (mkCelpOut ""
        (selected ≫= λ p, frame0 (fields p) ++ frame1 (fields p)))
  ∧ celp_print packets rows false =
      Returned (mkCelpOut (foldr (λ p acc, line p +:+ acc) "" selected) []).
Proof.
  intros Hnibble Hall is_celp selected byte fields line.
  assert (∀ p, p ∈ packets →
            _array p !! 2 = Some (byte p 2) ∧ _array p !! 3 = Some (byte p 3) ∧
            length (_array p) = 42) as Hbytes.
  { intros p Hp. apply (proj1 (Forall_forall _ _) Hall) in Hp.
    unfold byte.
    destruct (_array p !! 2) as [b2|] eqn:H2; [|apply lookup_ge_None in H2; lia].
    destruct (_array p !! 3) as [b3|] eqn:H3; [|apply lookup_ge_None in H3; lia].
    done. }
  assert (∀ p, p ∈ packets →
            celp_decode rows p =
              Returned (if is_celp p then Some (fields p) else None)) as Hdecode.
  { intros p Hp. destruct (Hbytes p Hp) as (H2 & H3 & _).
    rewrite (celp_decode_spec rows p _ _ H2 H3). unfold is_celp.
    by destruct (_ && _). }
  split; [exact Hdecode|]. split.
  { intros p [Hsel Hp]%list_elem_of_filter.
    destruct (Hbytes p Hp) as (_ & _ & Hlen).
    apply Is_true_true, andb_true_iff in Hsel as [Hmag%Z.eqb_eq _].
    split; [exact Hmag|]. unfold fields. cbn [dcn frame0 frame1]. split.
    { rewrite Hmag, land_1_odd. by destruct (Z.odd (mrag_row p)). }
    split; [rewrite py_slice_length; lia|].
    split; [rewrite py_slice_length; lia|].
    destruct (celp_frames_of_payload (_array p) Hlen) as [Hcat _].
    rewrite Hcat. unfold py_slice.
    rewrite (take_ge (drop 4 _)) by (rewrite length_drop; lia).
    by rewrite take_drop. }
  split.
  { assert (∀ l : list Packet, Forall (λ p, length (_array p) = 42) l →
              l ≫= (λ p, py_slice 4 42 (_array p)) =
              l ≫= (λ p, frame0 (fields p) ++ frame1 (fields p))) as Hsame.
    { induction 1 as [|p l Hp Hl IH]; [done|].
      rewrite !bind_cons, IH. f_equal. unfold fields. cbn [frame0 frame1].
      by destruct (celp_frames_of_payload (_array p) Hp) as [-> _]. }
    unfold celp_print. rewrite celp_print_from_file by done.
    cbn [printed written app]. fold selected. rewrite Hsame; [done|].
    apply Forall_forall. intros p [_ Hp]%list_elem_of_filter.
    by apply (proj1 (Forall_forall _ _) Hall). }
  unfold celp_print.
  rewrite (celp_print_from_text line).
  { done. }
  intros p [text bytes] Hp. destruct (Hbytes p Hp) as (H2 & H3 & _).
  unfold celp_print_packet. rewrite (Hdecode p Hp). unfold is_celp.
  destruct (Z.eqb_spec (mrag_magazine p) 4) as [Hmag|Hmag];
    [|cbn [andb mbind outcome_bind mret outcome_ret printed written];
      by rewrite append_nil_r].
  destruct (contains rows (mrag_row p));
    [|cbn [andb mbind outcome_bind mret outcome_ret printed written];
      by rewrite append_nil_r].
  cbn [andb mbind outcome_bind]. unfold fields.
  by rewrite (celp_text_line p (byte p 2) (byte p 3) Hnibble H3 Hmag).
Qed.

(** A stream of a CELP packet (magazine 4, row 1, control 1, service 2) and a
    packet of magazine 1, dumped and printed. *)
Lemma celp_print_outputs_witness :
  let p := mkPacket (Byte.xa1 :: Byte.x15 :: Byte.x02 :: Byte.x49 ::
                     (byte_of_nat <$> seq 4 38)) 0 in
  let q := mkPacket (example_payload Byte.x02 Byte.x15 Byte.x20) 1 in
  @celp_print example_coding example_mrag [p; q] (Range 32) true =
    Returned (mkCelpOut "" (byte_of_nat <$> seq 4 38)) ∧
  ∃ text, @celp_print example_coding example_mrag [p; q] (Range 32) false =
            Returned (mkCelpOut text []) ∧
          String.prefix
            ("DCN: 12 (4/1) Programme-independant audio. "
             +:+ "Single-channel mode using 3 VBI lines per frame Control: 0x1")
            text = true.
Proof.
  intros p q.
  destruct (@celp_print_outputs example_coding example_mrag [p; q] (Range 32)
              hamming8_message_nibble ltac:(repeat constructor))
    as (_ & _ & Hfile & Htext).
  split; [exact Hfile|]. eexists. split; [exact Htext|]. vm_compute. reflexivity.
Defined.

(* ------------------------------------------------------------------ *)
(** ** Reading a dump back                                              *)
(* ------------------------------------------------------------------ *)

Lemma rows_go_blocks {A} (k c : nat) (l : list A) (fuel : nat) :
  1 ≤ k → length l = c * k → c ≤ fuel →
  Forall (λ r, length r = k) (rows_go fuel k l) ∧
  concat (rows_go fuel k l) = l ∧
  length (rows_go fuel k l) = c.
Proof.
  intros Hk. revert l fuel. induction c as [|c IH]; intros l fuel Hlen Hfuel.
  - destruct l; [|done]. by destruct fuel.
  - destruct fuel as [|fuel]; [lia|]. destruct l as [|a l]; [simpl in Hlen; lia|].
    cbn [rows_go].
    destruct (IH (drop k (a :: l)) fuel) as (Hall & Hcat & Hn).
    { rewrite length_drop. lia. }
    { lia. }
    split; [|split].
    + constructor; [|done]. rewrite length_take. lia.
    + cbn [concat]. rewrite Hcat. apply take_drop.
    + simpl. by rewrite Hn.
Qed.

Lemma equal_blocks {A} (k : nat) (R R' : list (list A)) :
  1 ≤ k →
  Forall (λ r, length r = k) R → Forall (λ r, length r = k) R' →
  concat R = concat R' → R = R'.
Proof.
  intros Hk HR. revert R'. induction HR as [|r R Hr HR IH]; intros R' HR' Hcat.
  - destruct HR' as [|r' R' Hr' _]; [done|].
    simpl in Hcat. destruct r'; [simpl in Hr'; lia|done].
  - destruct HR' as [|r' R' Hr' HR'].
    + simpl in Hcat. destruct r; [simpl in Hr; lia|done].
    + simpl in Hcat. apply app_inj_1 in Hcat as [-> Hcat]; [|lia].
      f_equal. by apply IH.
Qed.

Lemma concat_blocks_length {A} (k : nat) (blocks : list (list A)) :
  Forall (λ r, length r = k) blocks →
  length (concat blocks) = length blocks * k.
Proof.
  induction 1 as [|r R Hr HR IH]; [done|].
  simpl. rewrite length_app, IH, Hr. lia.
Qed.

(** Cutting a sequence of blocks of [k] elements into rows of [k] gives the
    blocks back. *)
Lemma reshape_rows_concat {A} (k : nat) (blocks : list (list A)) :
  1 ≤ k → Forall (λ r, length r = k) blocks →
  reshape_rows k (concat blocks) = Returned blocks.
Proof.
  intros Hk Hall. unfold reshape_rows.
  pose proof (concat_blocks_length k blocks Hall) as Hlen.
  destruct (Nat.eqb_spec k 0) as [|_]; [lia|].
  rewrite Hlen, Nat.Div0.mod_mul. simpl. f_equal.
  destruct (rows_go_blocks k (length blocks) (concat blocks) (length blocks * k) Hk Hlen)
    as (Hrows & Hcat & _); [nia|].
  by apply (equal_blocks k).
Qed.

Lemma bind_concat {A B} (f : A → list B) (l : list A) : l ≫= f = concat (f <$> l).
Proof. induction l as [|a l IH]; [done|]. rewrite bind_cons, IH. done. Qed.

Lemma celp_frames_rows data frame rows :
  reshape_rows 38 data = Returned rows →
  celp_frames data frame =
  Returned (match frame with
            | Some 0%Z => (λ pr, unpackbits_little (take 19 pr)) <$> rows
            | Some 1%Z => (λ pr, unpackbits_little (drop 19 pr)) <$> rows
            | _ => rows ≫= λ pr, [unpackbits_little (take 19 pr);
                                  unpackbits_little (drop 19 pr)]
            end).
Proof.
  intros Hrows. unfold celp_frames. rewrite Hrows. simpl.
  assert (∀ {X Y Z} (h : X → Y) (k : Y → Z) (l : list X),
            k <$> (h <$> l) = (λ x, k (h x)) <$> l) as Hcomp.
  { intros X Y Z0 h k l. by rewrite <- list_fmap_compose. }
  destruct frame as [[|[| |]|]|]; simpl;
    first [by rewrite Hcomp | by rewrite list_fmap_bind].
Qed.

Lemma celp_frames_returned (data : list byte) (frame : option Z) :
  length data mod 38 = 0 →
  ∃ frames, celp_frames data frame = Returned frames ∧
    Forall (λ fr, length fr = 152) frames ∧
    length frames =
      (match frame with Some 0%Z | Some 1%Z => 1 | _ => 2 end) * (length data / 38).
Proof.
  intros Hmod. apply Nat.Div0.div_exact in Hmod as Hlen.
  destruct (rows_go_blocks 38 (length data / 38) data (length data))
    as (Hall & Hcat & Hn); [lia|lia| |].
  { pose proof (Nat.Div0.mul_div_le (length data) 38). lia. }
  assert (reshape_rows 38 data = Returned (rows_go (length data) 38 data)) as Hrows.
  { unfold reshape_rows. by rewrite Hmod. }
  rewrite (celp_frames_rows data frame _ Hrows). eexists. split; [done|].
  set (rows := rows_go (length data) 38 data) in *.
  assert (Forall (λ pr, length (unpackbits_little (take 19 pr)) = 152 ∧
                         length (unpackbits_little (drop 19 pr)) = 152) rows) as Hbits.
  { eapply Forall_impl; [exact Hall|]. intros pr Hpr. cbv beta in Hpr |- *.
    rewrite !unpackbits_little_length, length_take, length_drop.
    lia. }
  assert (Forall (λ fr, length fr = 152)
            ((λ pr, unpackbits_little (take 19 pr)) <$> rows) ∧
          length ((λ pr, unpackbits_little (take 19 pr)) <$> rows) =
            1 * (length data / 38)) as H0.
  { split; [|rewrite length_fmap; lia].
    apply Forall_fmap. eapply Forall_impl; [exact Hbits|]. by intros pr [? ?]. }
  assert (Forall (λ fr, length fr = 152)
            ((λ pr, unpackbits_little (drop 19 pr)) <$> rows) ∧
          length ((λ pr, unpackbits_little (drop 19 pr)) <$> rows) =
            1 * (length data / 38)) as H1.
  { split; [|rewrite length_fmap; lia].
    apply Forall_fmap. eapply Forall_impl; [exact Hbits|]. by intros pr [? ?]. }
  assert (Forall (λ fr, length fr = 152)
            (rows ≫= λ pr, [unpackbits_little (take 19 pr);
                            unpackbits_little (drop 19 pr)]) ∧
          length (rows ≫= λ pr, [unpackbits_little (take 19 pr);
                                 unpackbits_little (drop 19 pr)]) =
            2 * (length data / 38)) as H2.
  { split.
    - apply Forall_forall. intros fr (pr & Hfr & Hin)%list_elem_of_bind.
      destruct (proj1 (Forall_forall _ _) Hbits pr Hin) as [? ?].
      apply elem_of_cons in Hfr as [-> | Hfr]; [done|].
      apply elem_of_cons in Hfr as [-> | Hfr]; [done|].
      by apply elem_of_nil in Hfr.
    - rewrite bind_concat, (concat_blocks_length 2).
      + rewrite length_fmap. lia.
      + apply Forall_fmap, Forall_true. done. }
  destruct frame as [[|[| |]|]|]; first [exact H0 | exact H1 | exact H2].
Qed.

(** X13: the frames of a dump.  celp_generate_audio fails with a ValueError
    exactly when the length of the dump is not a multiple of 38; otherwise
    it works on frames of 152 bits each, two per 38 bytes, or one when only
    frame 0 or frame 1 is asked for. *)
Theorem celp_frames_of_dump (data : list byte) (frame : option Z)
    (frames : list (list bool)) :
  (celp_frames data frame = Raised ValueError ↔ length data mod 38 ≠ 0)
  ∧ (celp_frames data frame = Returned frames →
     length data mod 38 = 0 ∧
     Forall (λ fr, length fr = 152) frames ∧
     length frames =
       (match frame with Some 0%Z | Some 1%Z => 1 | _ => 2 end) * (length data / 38)).
Proof.
  destruct (Nat.eq_dec (length data mod 38) 0) as [Hmod|Hmod].
  - destruct (celp_frames_returned data frame Hmod) as (frames' & Hrun & Hall & Hn).
    rewrite Hrun. split; [split; [done|lia]|]. by intros [= <-].
  - split; [|intros Hret; exfalso].
    + split; [done|]. intros _. unfold celp_frames, reshape_rows.
      destruct (Nat.eqb_spec (length data mod 38) 0); [done|]. done.
    + revert Hret. unfold celp_frames, reshape_rows.
      destruct (Nat.eqb_spec (length data mod 38) 0); [done|]. done.
Qed.

(** The dump of one packet: 38 bytes, two frames. *)
Lemma celp_frames_of_dump_witness :
  length (byte_of_nat <$> seq 4 38) mod 38 = 0.
Proof.
  refine (proj1 (proj2 (celp_frames_of_dump (byte_of_nat <$> seq 4 38) None
                          [unpackbits_little (byte_of_nat <$> seq 4 19);
                           unpackbits_little (byte_of_nat <$> seq 23 19)]) _)).
  vm_compute. reflexivity.
Defined.

Lemma frames_of_block (arr : list byte) :
  take 19 (py_slice 4 42 arr) = py_slice 4 23 arr ∧
  drop 19 (py_slice 4 42 arr) = py_slice 23 42 arr.
Proof.
  unfold py_slice. change (23 - 4) with 19. change (42 - 23) with 19.
  change (42 - 4) with (19 + 19). split.
  - rewrite take_take. by f_equal.
  - rewrite <- take_drop_commute, drop_drop. done.
Qed.

(** X14: what celp_print writes, celp_generate_audio reads back: the frames
    it takes from the dump are, packet by packet in stream order, the bits
    of bytes 4..22 and of bytes 23..41 of the selected packets, least
    significant bit of each byte first; with [frame] 0 or 1, only the first
    or only the second of each packet. *)
Theorem celp_dump_read_back {C : Coding} {M : Mrag} (packets : list Packet)
    (rows : container) (out : celp_output) :
  Forall (λ p, length (_array p) = 42) packets →
  celp_print packets rows true = Returned out →
  let selected :=
    filter (λ p, (mrag_magazine p =? 4)%Z && contains rows (mrag_row p)) packets in
  celp_frames (written out) None =
    Returned (selected ≫= λ p, [unpackbits_little (py_slice 4 23 (_array p));
                                unpackbits_little (py_slice 23 42 (_array p))])
  ∧ celp_frames (written out) (Some 0%Z) =
      Returned ((λ p, unpackbits_little (py_slice 4 23 (_array p))) <$> selected)
  ∧ celp_frames (written out) (Some 1%Z) =
      Returned ((λ p, unpackbits_little (py_slice 23 42 (_array p))) <$> selected).
Proof.
  intros Hall Hrun selected. unfold celp_print in Hrun.
  rewrite celp_print_from_file in Hrun by done. injection Hrun as <-.
  cbn [written app]. fold selected.
  assert (Forall (λ p, length (_array p) = 42) selected) as Hsel
    by (apply Forall_forall; intros p [_ Hp]%list_elem_of_filter;
        by apply (proj1 (Forall_forall _ _) Hall)).
  assert (reshape_rows 38 (selected ≫= λ p, py_slice 4 42 (_array p)) =
          Returned ((λ p, py_slice 4 42 (_array p)) <$> selected)) as Hrows.
  { rewrite bind_concat. apply reshape_rows_concat; [lia|].
    apply Forall_fmap. eapply Forall_impl; [exact Hsel|]. intros p Hp.
    cbv beta in Hp |- *. unfold compose. rewrite py_slice_length; lia. }
  split; [|split]; rewrite (celp_frames_rows _ _ _ Hrows).
  - f_equal. rewrite list_fmap_bind. clear. induction selected as [|p l IH]; [done|].
    rewrite !bind_cons, IH. simpl.
    by destruct (frames_of_block (_array p)) as [-> ->].
  - f_equal. rewrite <- list_fmap_compose. apply list_fmap_ext. intros _ p _. simpl.
    by destruct (frames_of_block (_array p)) as [-> _].
  - f_equal. rewrite <- list_fmap_compose. apply list_fmap_ext. intros _ p _. simpl.
    by destruct (frames_of_block (_array p)) as [_ ->].
Qed.

(** The dump of a CELP packet and a packet of magazine 1, read back. *)
Lemma celp_dump_read_back_witness :
  celp_frames (byte_of_nat <$> seq 4 38) (Some 0%Z) =
    Returned [unpackbits_little (byte_of_nat <$> seq 4 19)].
Proof.
  set (p := mkPacket (Byte.xa1 :: Byte.x15 :: Byte.x02 :: Byte.x49 ::
                      (byte_of_nat <$> seq 4 38)) 0).
  set (q := mkPacket (example_payload Byte.x02 Byte.x15 Byte.x20) 1).
  refine (proj1 (proj2 (@celp_dump_read_back example_coding example_mrag [p; q]
                          (Range 32) (mkCelpOut "" (byte_of_nat <$> seq 4 38)) _ _))).
  - repeat constructor.
  - vm_compute. reflexivity.
Defined.

(** X15: celp_generate_audio decodes every dump whose length is a multiple
    of 38: for each frame it fills 30 fields, none of which fails to pack
    into one byte, each in 0..255. *)
Theorem celp_decoding_succeeds (data : list byte) (frame : option Z) :
  length data mod 38 = 0 →
  ∃ decoded,
    celp_decoded_frames data frame = Returned decoded ∧
    length decoded =
      (match frame with Some 0%Z | Some 1%Z => 1 | _ => 2 end) * (length data / 38) ∧
    Forall (λ fields, length fields = 30 ∧ Forall (λ v, (0 ≤ v < 256)%Z) fields)
      decoded.
Proof.
  intros Hmod.
  destruct (celp_frames_returned data frame Hmod) as (frames & Hrun & Hall & Hn).
  unfold celp_decoded_frames. rewrite Hrun. simpl.
  set (fields := λ fr : list bool,
         (λ n, bits_value (py_slice (default 0 (g !! n))
                 (default 0 (g !! n) + default 0 (widths !! (n + 1))) fr))
           <$> seq 0 30).
  rewrite (mapM_returned decode_frame fields).
  - eexists. split; [done|]. split; [by rewrite length_fmap|].
    apply Forall_fmap. eapply Forall_impl; [exact Hall|]. intros fr Hfr.
    unfold compose, fields. cbv beta in Hfr |- *.
    split; [by rewrite length_fmap, length_seq|].
    apply Forall_fmap, Forall_forall. intros n [i [-> Hi]%lookup_seq]%list_elem_of_lookup_1.
    unfold compose. cbn [Nat.add].
    destruct (g !! i) as [lo|] eqn:Hlo;
      [|apply lookup_ge_None in Hlo; simpl in Hlo; lia].
    destruct (widths !! (i + 1)) as [w|] eqn:Hw;
      [|apply lookup_ge_None in Hw; simpl in Hw; lia].
    destruct (g_field i lo w Hi Hlo Hw) as (_ & Hwb & Hend). simpl.
    pose proof (bits_value_bound (py_slice lo (lo + w) fr)) as Hb.
    rewrite py_slice_length in Hb by lia.
    replace (lo + w - lo) with w in Hb by lia.
    assert (2 ^ Z.of_nat w ≤ 2 ^ 8)%Z by (apply Z.pow_le_mono_r; lia).
    lia.
  - intros fr Hfr. apply decode_frame_fields.
    by apply (proj1 (Forall_forall _ _) Hall).
Qed.

(** The dump of one packet, decoded. *)
Lemma celp_decoding_succeeds_witness :
  ∃ decoded, celp_decoded_frames (byte_of_nat <$> seq 4 38) None = Returned decoded ∧
             length decoded = 2 * (length (byte_of_nat <$> seq 4 38) / 38).
Proof.
  assert (length (byte_of_nat <$> seq 4 38) mod 38 = 0) as Hmod
    by (vm_compute; reflexivity).
  destruct (celp_decoding_succeeds (byte_of_nat <$> seq 4 38) None Hmod)
    as (decoded & Hrun & Hn & _).
  by exists decoded.
Defined.

Lemma py_slice_app {A} (lo mid hi : nat) (l : list A) :
  lo ≤ mid ≤ hi → py_slice lo hi l = py_slice lo mid l ++ py_slice mid hi l.
Proof.
  intros H. unfold py_slice.
  replace (hi - lo) with ((mid - lo) + (hi - mid)) by lia.
  rewrite <- take_take_drop, drop_drop.
  by replace (lo + (mid - lo)) with mid by lia.
Qed.

(** One plotted series of celp_plot: four groups of [w] bits from offset
    [lo] of every frame, each packed into one value. *)
Lemma celp_plot_series_groups (frames : list (list bool)) (lo w : nat) :
  1 ≤ w ≤ 8 → Forall (λ f, lo + 4 * w ≤ length f) frames →
  celp_plot_series frames lo (lo + 4 * w) w =
  Returned (frames ≫= λ f,
    (λ k, bits_value (py_slice (lo + k * w) (lo + k * w + w) f)) <$> seq 0 4).
Proof.
  intros Hw Hall. unfold celp_plot_series.
  set (groups := λ f : list bool,
         (λ k, py_slice (lo + k * w) (lo + k * w + w) f) <$> seq 0 4).
  assert (frames ≫= py_slice lo (lo + 4 * w) = concat (frames ≫= groups)) as ->.
  { clear Hall. induction frames as [|f frames IH]; [done|].
    rewrite !bind_cons, concat_app, IH. f_equal.
    unfold groups. cbn [fmap list_fmap seq concat].
    rewrite (py_slice_app lo (lo + 0 * w + w)) by lia.
    rewrite (py_slice_app (lo + 0 * w + w) (lo + 1 * w + w)) by lia.
    rewrite (py_slice_app (lo + 1 * w + w) (lo + 2 * w + w)) by lia.
    rewrite app_nil_r.
    replace (lo + 0 * w) with lo by lia.
    replace (lo + 1 * w) with (lo + w) by lia.
    replace (lo + 2 * w) with (lo + 1 * w + w) by lia.
    replace (lo + 3 * w) with (lo + 1 * w + w + w) by lia.
    replace (lo + 4 * w) with (lo + 1 * w + w + w + w) by lia.
    replace (lo + 1 * w) with (lo + w) by lia.
    done. }
  assert (Forall (λ r, length r = w) (frames ≫= groups)) as Hrows.
  { apply Forall_forall. intros r (f & Hr & Hf)%list_elem_of_bind.
    apply (proj1 (Forall_forall _ _) Hall) in Hf.
    unfold groups in Hr.
    apply list_elem_of_fmap in Hr as (k & -> & Hk).
    apply list_elem_of_lookup_1 in Hk as [i [-> Hi]%lookup_seq].
    rewrite py_slice_length; nia. }
  rewrite reshape_rows_concat by (done || lia). simpl. f_equal.
  clear Hall. induction frames as [|f frames IH]; [done|].
  rewrite bind_cons in Hrows. apply Forall_app in Hrows as [Hf Hrest].
  rewrite !bind_cons, bind_app, IH by done. f_equal.
  unfold groups in Hf |- *. cbn [fmap list_fmap seq] in Hf |- *.
  repeat (apply Forall_cons in Hf as [? Hf]).
  rewrite !bind_cons, !packbits_little_short by lia. done.
Qed.

(** X16: the four series celp_plot draws for a frame column are fields of
    the frames celp_generate_audio decodes: the offsets 37, 57, 77 and 105
    written out in celp_plot cut every frame at the boundaries g[10..26] of
    the layout, so the series are pitch_gain = decoded_frame[10:14],
    decoded_frame[14:18], pitch_idx = decoded_frame[18:22] and
    vector_idx = decoded_frame[22:26], frame after frame. *)
Theorem celp_plot_series_are_decoded_fields (data : list byte) (frame : option Z) :
  length data mod 38 = 0 →
  ∃ frames decoded,
    celp_frames data frame = Returned frames ∧
    celp_decoded_frames data frame = Returned decoded ∧
    celp_plot_series frames 37 (37 + 20) 5 = Returned (decoded ≫= py_slice 10 14) ∧
    celp_plot_series frames (37 + 20) (37 + 20 + 20) 5 =
      Returned (decoded ≫= py_slice 14 18) ∧
    celp_plot_series frames (37 + 20 + 20) (37 + 20 + 20 + 28) 7 =
      Returned (decoded ≫= py_slice 18 22) ∧
    celp_plot_series frames (37 + 20 + 20 + 28) (37 + 20 + 20 + 28 + 32) 8 =
      Returned (decoded ≫= py_slice 22 26).
Proof.
  intros Hmod.
  destruct (celp_frames_returned data frame Hmod) as (frames & Hrun & Hall & _).
  set (fields := λ fr : list bool,
         (λ n, bits_value (py_slice (default 0 (g !! n))
                 (default 0 (g !! n) + default 0 (widths !! (n + 1))) fr))
           <$> seq 0 30).
  exists frames, (fields <$> frames). split; [done|]. split.
  { unfold celp_decoded_frames. rewrite Hrun. simpl.
    apply mapM_returned. intros fr Hfr. apply decode_frame_fields.
    by apply (proj1 (Forall_forall _ _) Hall). }
  assert (∀ lo w, lo + 4 * w ≤ 152 → Forall (λ f, lo + 4 * w ≤ length f) frames)
    as Hlong.
  { intros lo w Hle. eapply Forall_impl; [exact Hall|].
    intros f Hf. cbv beta in Hf |- *. lia. }
  rewrite !list_fmap_bind.
  (* [fields] and the layout [g] compute: slots 10..25 of a decoded frame are
     the packed bit groups at 37 + 5k, 57 + 5k, 77 + 7k and 105 + 8k. *)
  split; [|split; [|split]].
  - refine (eq_trans (celp_plot_series_groups frames 37 5 ltac:(lia)
                       (Hlong 37 5 ltac:(lia))) _).
    reflexivity.
  - refine (eq_trans (celp_plot_series_groups frames 57 5 ltac:(lia)
                       (Hlong 57 5 ltac:(lia))) _).
    reflexivity.
  - refine (eq_trans (celp_plot_series_groups frames 77 7 ltac:(lia)
                       (Hlong 77 7 ltac:(lia))) _).
    reflexivity.
  - refine (eq_trans (celp_plot_series_groups frames 105 8 ltac:(lia)
                       (Hlong 105 8 ltac:(lia))) _).
    reflexivity.
Qed.

(** The series of the dump of one packet. *)
Lemma celp_plot_series_are_decoded_fields_witness :
  ∃ frames decoded,
    celp_frames (byte_of_nat <$> seq 4 38) (Some 0%Z) = Returned frames ∧
    celp_decoded_frames (byte_of_nat <$> seq 4 38) (Some 0%Z) = Returned decoded ∧
    celp_plot_series frames 37 (37 + 20) 5 = Returned (decoded ≫= py_slice 10 14).
Proof.
  assert (length (byte_of_nat <$> seq 4 38) mod 38 = 0) as Hmod
    by (vm_compute; reflexivity).
  destruct (celp_plot_series_are_decoded_fields (byte_of_nat <$> seq 4 38)
              (Some 0%Z) Hmod) as (frames & decoded & Hf & Hd & Ha & _).
  by exists frames, decoded.
Defined.

Lemma filter_all {A} (P : A → Prop) `{∀ x, Decision (P x)} (l : list A) :
  Forall P l → filter P l = l.
Proof.
  induction 1 as [|x l Hx _ IH]; [done|].
  rewrite filter_cons, decide_True by exact Hx. by rewrite IH.
Qed.

(** The keywords the wrapper of packetreader passes on are those of the
    command's own options: the ones the two wrappers take are gone. *)
Lemma packetreader_wrapper_passes (own : list string) :
  Forall (λ k, (k ∉ parameters chunkreader_wrapper) ∧
               (k ∉ parameters packetreader_wrapper)) own →
  ∃ kwargs,
    call_keywords chunkreader_wrapper (own ++ packetreader_options) = Returned kwargs ∧
    "progress" ∈ kwargs ∧
    call_keyword packetreader_wrapper "chunker" kwargs = Returned own.
Proof.
  intros Hown.
  assert (filter (λ k, k ∉ parameters chunkreader_wrapper) own = own) as Hc
    by (apply filter_all; eapply Forall_impl; [exact Hown|]; by intros k [? _]).
  assert (filter (λ k, k ∉ parameters packetreader_wrapper) own = own) as Hp
    by (apply filter_all; eapply Forall_impl; [exact Hown|]; by intros k [_ ?]).
  exists (own ++ ["wst"] ++ filterparams_options ++ progressparams_options).
  split; [|split].
  - unfold call_keywords.
    rewrite bool_decide_eq_true_2.
    2:{ apply Forall_forall. intros p Hp'. left. apply elem_of_app. right.
        unfold packetreader_options. apply elem_of_app. by left. }
    change (var_keyword chunkreader_wrapper) with true.
    cbn [andb orb]. by rewrite filter_app, Hc.
  - apply elem_of_app. right. unfold filterparams_options, progressparams_options.
    cbn [app]. do 3 apply list_elem_of_further. apply list_elem_of_here.
  - unfold call_keyword.
    rewrite bool_decide_eq_false_2.
    2:{ intros [Hin|Hin]%elem_of_app.
        - apply (proj1 (Forall_forall _ _) Hown) in Hin as [_ Hin].
          apply Hin. apply list_elem_of_here.
        - unfold filterparams_options, progressparams_options in Hin.
          cbn [app] in Hin.
          repeat (apply elem_of_cons in Hin as [Hin|Hin]; [discriminate|]).
          by apply elem_of_nil in Hin. }
    unfold call_keywords.
    rewrite bool_decide_eq_true_2.
    2:{ apply Forall_forall. intros p Hp'. left.
        apply elem_of_cons in Hp' as [->|Hp']; [by left|]. right.
        apply elem_of_app. right. exact Hp'. }
    change (var_keyword packetreader_wrapper) with true.
    cbn [andb orb]. f_equal.
    rewrite filter_cons, decide_False by (intros Hn; apply Hn; by left).
    rewrite filter_app, Hp. by rewrite app_nil_r.
Qed.

(** A command under [@packetreader], as click calls it: the usage error on a
    terminal, then the packet stream, then the call of the function with
    [packets] and the command's own keywords. *)
Lemma packetreader_command_spec {M : Mrag} {R} (f : signature) (own : list string)
    (body : list Packet → outcome R) input start stop step limit wst mags rows
    progress mag_hist row_hist err_hist :
  Forall (λ k, (k ∉ parameters chunkreader_wrapper) ∧
               (k ∉ parameters packetreader_wrapper)) own →
  packetreader_command f (own ++ packetreader_options) body input start stop step
    limit wst mags rows progress mag_hist row_hist err_hist =
  if input_isatty input
  then Raised (UsageError "No input file and stdin is a tty - exiting.")
  else if default (negb (input_is_fifo input)) progress && err_hist
          && negb (mag_hist || row_hist)
  then Raised AttributeError
  else _ ← call_keyword f "packets" own;
       body (filter (λ p, mrag_selected mags rows p)
               ((λ c, mkPacket c.2 (Z.of_nat c.1)) <$>
                  FileChunker (input_content input) (if wst then 43 else 42)
                    start stop step limit)).
Proof.
  intros Hown.
  destruct (packetreader_wrapper_passes own Hown) as (kwargs & Hc & Hprogress & Hp).
  unfold packetreader_command, chunkreader. rewrite Hc. cbn [mbind outcome_bind].
  destruct (input_isatty input); [done|].
  rewrite Hp. cbn [mbind outcome_bind].
  rewrite bool_decide_eq_true_2 by exact Hprogress.
  rewrite packetreader_spec.
  destruct progress as [b|]; [|destruct (input_is_fifo input)]; cbn [mbind option_bind id default negb];
    by destruct (_ && err_hist && negb (mag_hist || row_hist)).
Qed.

(** X17: the html command never reaches its body.  Its function declares
    [progress], [mag_hist] and [row_hist], which the wrapper of packetreader
    takes for itself and does not pass on, so whatever the input and the
    options the command ends in an exception: the usage error on a terminal,
    the AttributeError of an error histogram without statistics list, and a
    TypeError in every other case. *)
Theorem html_command_never_runs {M : Mrag} {R} (body : list Packet → outcome R)
    input start stop step limit wst mags rows progress mag_hist row_hist err_hist :
  html_command body input start stop step limit wst mags rows progress
    mag_hist row_hist err_hist =
  if input_isatty input
  then Raised (UsageError "No input file and stdin is a tty - exiting.")
  else if default (negb (input_is_fifo input)) progress && err_hist
          && negb (mag_hist || row_hist)
  then Raised AttributeError
  else Raised TypeError.
Proof.
  unfold html_command, html_options.
  rewrite packetreader_command_spec.
  - done.
  - repeat constructor; intros Hin;
      repeat (apply elem_of_cons in Hin as [Hin|Hin]; [discriminate|]);
      by apply elem_of_nil in Hin.
Qed.

(** X18: urls, wired through the same wrappers, is called with exactly the
    parameters it declares.  On a t42 stream, without [--wst]: off a
    terminal, and unless the error histogram fails, its body runs on the
    packets of the selected magazines and rows. *)
Theorem urls_command_runs {M : Mrag} {R} (body : list Packet → outcome R)
    input start stop step limit mags rows progress mag_hist row_hist err_hist :
  urls_command body input start stop step limit false mags rows progress
    mag_hist row_hist err_hist =
  if input_isatty input
  then Raised (UsageError "No input file and stdin is a tty - exiting.")
  else if default (negb (input_is_fifo input)) progress && err_hist
          && negb (mag_hist || row_hist)
  then Raised AttributeError
  else body (filter (λ p, mrag_selected mags rows p)
               ((λ c, mkPacket c.2 (Z.of_nat c.1)) <$>
                  FileChunker (input_content input) 42 start stop step limit)).
Proof.
  unfold urls_command, urls_options.
  rewrite packetreader_command_spec.
  - done.
  - repeat constructor; intros Hin;
      repeat (apply elem_of_cons in Hin as [Hin|Hin]; [discriminate|]);
      by apply elem_of_nil in Hin.
Qed.

(** X19: the record command never reaches its capture loop.  No option of
    the command is named [output], so once the Config is built the call of
    record fails with a TypeError; nothing is read from the device and nothing
    is written, whatever the device holds. *)
Theorem record_command_never_runs (config : outcome Config)
    (output device : list byte) (interrupt : option nat) :
  record_command config output device interrupt =
  match config with
  | Returned _ => Raised TypeError
  | Raised e => Raised e
  end.
Proof.
  unfold record_command, carduser_command. by destruct config.
Qed.
